(** * The [vesting] Anchor program: [claim_tokens] over 64-bit signed integers

    Shallow embedding of [programs/vesting/src/lib.rs].  The account
    fields typed [i64] are integers of [Z] kept in the signed 64-bit range;
    every [i64] operation of the source is written out with its Rust
    semantics: [saturating_sub] clamps at the two ends of the [i64] range,
    [checked_mul] yields [None] outside of it, [/] truncates toward zero and
    panics on [i64::MIN / -1], [as u64] reduces modulo [2^64].  [+=] is
    modelled as the overflow-checked addition; from a well-formed account it
    never overflows ([add_claimable_in_range] below), so a wrapping [+=]
    would behave the same. *)

From Stdlib Require Import ZArith Lia List Bool String Ascii.
Import ListNotations.
Local Open Scope Z_scope.
Local Open Scope bool_scope.

(** ** Signed 64-bit integers *)
Module I64.

Definition MIN : Z := - 2 ^ 63.
Definition MAX : Z := 2 ^ 63 - 1.

Definition in_range (a : Z) : Prop := MIN <= a <= MAX.

Definition in_rangeb (a : Z) : bool := (MIN <=? a) && (a <=? MAX).

(** [i64::saturating_sub] *)
Definition saturating_sub (a b : Z) : Z := Z.max MIN (Z.min MAX (a - b)).

(** [i64::checked_mul] *)
Definition checked_mul (a b : Z) : option Z :=
  if in_rangeb (a * b) then Some (a * b) else None.

(** [i64::checked_add], the meaning of [+=] with overflow checks on *)
Definition checked_add (a b : Z) : option Z :=
  if in_rangeb (a + b) then Some (a + b) else None.

(** [a / b] on [i64]: truncating division, which panics when [b = 0] and
    on the single overflowing quotient [i64::MIN / -1]. *)
Definition checked_div (a b : Z) : option Z :=
  if b =? 0 then None
  else if (a =? MIN) && (b =? -1) then None
  else Some (Z.quot a b).

(** [a as u64] *)
Definition as_u64 (a : Z) : Z := a mod 2 ^ 64.

End I64.

(** ** Accounts *)

(** A [Pubkey] is kept abstract as an integer; [claim_tokens] only moves
    it around. *)
Definition Pubkey := Z.

Record EmployeeAccount := mkEmployeeAccount {
  beneficiary : Pubkey;
  start_time : Z;
  end_time : Z;
  total_amount : Z;
  total_withdrawn : Z;
  cliff_time : Z;
  vesting_account : Pubkey;
  bump : Z
}.

(** Every [i64] field holds an [i64]. *)
Definition wf_account (e : EmployeeAccount) : Prop :=
  I64.in_range (start_time e) /\ I64.in_range (end_time e) /\
  I64.in_range (total_amount e) /\ I64.in_range (total_withdrawn e) /\
  I64.in_range (cliff_time e).

Definition set_total_withdrawn (e : EmployeeAccount) (w : Z) : EmployeeAccount :=
  {| beneficiary := beneficiary e; start_time := start_time e;
     end_time := end_time e; total_amount := total_amount e;
     total_withdrawn := w; cliff_time := cliff_time e;
     vesting_account := vesting_account e; bump := bump e |}.

(** [create_employee_vesting]: the account as it is initialised. *)
Definition create_employee_vesting (beneficiary_key vesting_key : Pubkey)
    (bump_seed start_time end_time total_amount cliff_time : Z)
    : EmployeeAccount :=
  {| beneficiary := beneficiary_key; start_time := start_time;
     end_time := end_time; total_amount := total_amount;
     total_withdrawn := 0; cliff_time := cliff_time;
     vesting_account := vesting_key; bump := bump_seed |}.

(** ** Errors and the transfer port *)

(** The opaque error of the token program's [transfer_checked]. *)
Definition TransferError := Z.

Inductive ErrorCode :=
| ClaimNotAvailableYet
| NothingToClaim
| InvalidVestingPeriod
| CalculationOverflow
| TokenTransferError (t : TransferError)
| ArithmeticPanic.

Inductive result (A : Type) :=
| Ok (a : A)
| Err (e : ErrorCode).
Arguments Ok {A} a.
Arguments Err {A} e.

(** [token_interface::transfer_checked] as seen by the program: given the
    [u64] amount and the mint's decimals, it succeeds ([None]) or fails. *)
Definition TransferPort := Z -> Z -> option TransferError.

(** What one [claim_tokens] instruction leaves behind: the employee account
    after the call, the amounts handed to the transfer port, and the
    instruction's result. *)
Record ClaimOutcome := mkOutcome {
  acct : EmployeeAccount;
  transfers : list Z;
  outcome : result unit
}.

(** ** [claim_tokens] *)

(** The vested amount, lines 81-102 of [claim_tokens]. *)
Definition vested_amount (e : EmployeeAccount) (now : Z) : result Z :=
  let time_since_start := I64.saturating_sub now (start_time e) in
  let total_vesting_time := I64.saturating_sub (end_time e) (start_time e) in
  if total_vesting_time =? 0 then Err InvalidVestingPeriod
  else if end_time e <=? now then Ok (total_amount e)
  else
    match I64.checked_mul (total_amount e) time_since_start with
    | Some product =>
        match I64.checked_div product total_vesting_time with
        | Some q => Ok q
        | None => Err ArithmeticPanic
        end
    | None => Err CalculationOverflow
    end.

(** The claimable amount, lines 71-105: the cliff check, the vested amount
    and the saturating difference with what was already withdrawn. *)
Definition claimable_amount (e : EmployeeAccount) (now : Z) : result Z :=
  if now <? cliff_time e then Err ClaimNotAvailableYet
  else
    match vested_amount e now with
    | Ok vested => Ok (I64.saturating_sub vested (total_withdrawn e))
    | Err err => Err err
    end.

(** The whole instruction, at the time [now] read from the clock and with
    the mint's [decimals]. *)
Definition claim_tokens (transfer_checked : TransferPort) (decimals : Z)
    (e : EmployeeAccount) (now : Z) : ClaimOutcome :=
  match claimable_amount e now with
  | Err err => mkOutcome e [] (Err err)
  | Ok claimable =>
      if claimable =? 0 then mkOutcome e [] (Err NothingToClaim)
      else
        let amount := I64.as_u64 claimable in
        match transfer_checked amount decimals with
        | Some t => mkOutcome e [amount] (Err (TokenTransferError t))
        | None =>
            match I64.checked_add (total_withdrawn e) claimable with
            | Some w => mkOutcome (set_total_withdrawn e w) [amount] (Ok tt)
            | None => mkOutcome e [amount] (Err ArithmeticPanic)
            end
        end
  end.

(** A transfer port that always succeeds. *)
Definition transfer_ok : TransferPort := fun _ _ => None.

Definition sched (start end_ total cliff withdrawn : Z) : EmployeeAccount :=
  {| beneficiary := 1; start_time := start; end_time := end_;
     total_amount := total; total_withdrawn := withdrawn;
     cliff_time := cliff; vesting_account := 2; bump := 255 |}.

Example vested_midpoint : vested_amount (sched 0 100 1000 0 0) 50 = Ok 500.
Proof. reflexivity. Qed.

Example claim_before_start :
  claimable_amount (sched 10 20 100 0 0) 5 = Ok (-50).
Proof. reflexivity. Qed.

(** ** Arithmetic facts about the [i64] operations *)

Lemma saturating_sub_in_range (a b : Z) : I64.in_range (I64.saturating_sub a b).
Proof. unfold I64.in_range, I64.saturating_sub, I64.MIN, I64.MAX. lia. Qed.

Lemma saturating_sub_exact (a b : Z) :
  I64.in_range (a - b) -> I64.saturating_sub a b = a - b.
Proof. unfold I64.in_range, I64.saturating_sub, I64.MIN, I64.MAX. lia. Qed.

Lemma saturating_sub_zero (a b : Z) :
  I64.in_range a -> I64.in_range b -> I64.saturating_sub a b = 0 <-> a = b.
Proof. unfold I64.in_range, I64.saturating_sub, I64.MIN, I64.MAX. lia. Qed.

Lemma saturating_sub_mono_l (a a' b : Z) :
  a <= a' -> I64.saturating_sub a b <= I64.saturating_sub a' b.
Proof. unfold I64.saturating_sub. lia. Qed.

Lemma saturating_sub_nonneg (a b : Z) :
  b <= a -> 0 <= I64.saturating_sub a b.
Proof. unfold I64.saturating_sub, I64.MIN, I64.MAX. lia. Qed.

Lemma in_rangeb_spec (a : Z) : I64.in_rangeb a = true <-> I64.in_range a.
Proof.
  unfold I64.in_rangeb, I64.in_range.
  rewrite andb_true_iff, !Z.leb_le. tauto.
Qed.

Lemma checked_mul_some (a b p : Z) :
  I64.checked_mul a b = Some p -> p = a * b /\ I64.in_range p.
Proof.
  unfold I64.checked_mul. destruct (I64.in_rangeb (a * b)) eqn:E; [|discriminate].
  intros H; inversion H; subst. split; [reflexivity | now apply in_rangeb_spec].
Qed.

Lemma checked_mul_none (a b : Z) :
  I64.checked_mul a b = None <-> ~ I64.in_range (a * b).
Proof.
  unfold I64.checked_mul. rewrite <- in_rangeb_spec.
  destruct (I64.in_rangeb (a * b)); split; congruence.
Qed.

Lemma checked_add_in_range (a b : Z) :
  I64.in_range (a + b) -> I64.checked_add a b = Some (a + b).
Proof.
  unfold I64.checked_add. intros H. apply in_rangeb_spec in H. now rewrite H.
Qed.

(** [w + saturating_sub v w] lies between [w] and [v]: the [+=] of line 137
    never overflows. *)
Lemma add_claimable_in_range (v w : Z) :
  I64.in_range v -> I64.in_range w -> I64.in_range (w + I64.saturating_sub v w).
Proof. unfold I64.in_range, I64.saturating_sub, I64.MIN, I64.MAX. lia. Qed.

Lemma as_u64_neg (c : Z) :
  I64.in_range c -> c < 0 -> I64.as_u64 c = c + 2 ^ 64.
Proof.
  unfold I64.in_range, I64.MIN, I64.MAX, I64.as_u64. intros H Hc.
  rewrite <- (Z.mod_small (c + 2 ^ 64) (2 ^ 64)) by lia.
  rewrite Zplus_mod, Z_mod_same_full, Z.add_0_r, Zmod_mod. reflexivity.
Qed.

Lemma as_u64_pos (c : Z) :
  I64.in_range c -> 0 <= c -> I64.as_u64 c = c.
Proof.
  unfold I64.in_range, I64.MIN, I64.MAX, I64.as_u64. intros H Hc.
  apply Z.mod_small. lia.
Qed.

(** A successful [i64] quotient stays in the [i64] range. *)
Lemma checked_div_in_range (a b q : Z) :
  I64.in_range a -> I64.checked_div a b = Some q -> I64.in_range q.
Proof.
  unfold I64.checked_div. intros Ha H.
  destruct (b =? 0) eqn:Hb; [discriminate|].
  destruct ((a =? I64.MIN) && (b =? -1)) eqn:Hm; [discriminate|].
  inversion H; subst q; clear H.
  apply Z.eqb_neq in Hb. apply andb_false_iff in Hm.
  assert (Habs : Z.abs (Z.quot a b) = Z.quot (Z.abs a) (Z.abs b))
    by (symmetry; apply Z.quot_abs; exact Hb).
  assert (Hle1 : Z.quot (Z.abs a) (Z.abs b) <= Z.quot (Z.abs a) 1)
    by (apply Z.quot_le_compat_l; lia).
  rewrite Z.quot_1_r in Hle1.
  unfold I64.in_range, I64.MIN, I64.MAX in *.
  destruct (Z.eq_dec a (- 2 ^ 63)) as [Hmin | Hmin].
  - destruct (Z.eq_dec (Z.abs b) 1) as [Hb1 | Hb1].
    + destruct Hm as [Hm | Hm]; [apply Z.eqb_neq in Hm; lia|].
      apply Z.eqb_neq in Hm. assert (b = 1) by lia. subst b.
      rewrite Z.quot_1_r. lia.
    + assert (Hle2 : Z.quot (Z.abs a) (Z.abs b) <= Z.quot (Z.abs a) 2)
        by (apply Z.quot_le_compat_l; lia).
      assert (Z.quot (Z.abs a) 2 = 2 ^ 62) by (rewrite Hmin; reflexivity).
      lia.
  - lia.
Qed.

(** ** Facts about [vested_amount], [claimable_amount] and [claim_tokens] *)

Lemma vested_in_range (e : EmployeeAccount) (now v : Z) :
  wf_account e -> vested_amount e now = Ok v -> I64.in_range v.
Proof.
  intros (_ & _ & Htot & _ & _). unfold vested_amount.
  destruct (_ =? 0); [discriminate|].
  destruct (end_time e <=? now).
  - intros H; inversion H; subst; exact Htot.
  - destruct (I64.checked_mul _ _) as [p|] eqn:Hp; [|discriminate].
    apply checked_mul_some in Hp as [_ Hp].
    destruct (I64.checked_div p _) as [q|] eqn:Hq; [|discriminate].
    intros H; inversion H; subst. eapply checked_div_in_range; eauto.
Qed.

Lemma claimable_ok_inv (e : EmployeeAccount) (now c : Z) :
  claimable_amount e now = Ok c ->
  cliff_time e <= now /\
  exists v, vested_amount e now = Ok v /\
            c = I64.saturating_sub v (total_withdrawn e).
Proof.
  unfold claimable_amount. destruct (now <? cliff_time e) eqn:Hc; [discriminate|].
  apply Z.ltb_ge in Hc.
  destruct (vested_amount e now) as [v|err]; [|discriminate].
  intros H; inversion H; subst. eauto.
Qed.

Lemma claimable_in_range (e : EmployeeAccount) (now c : Z) :
  claimable_amount e now = Ok c -> I64.in_range c.
Proof.
  intros H. apply claimable_ok_inv in H as (_ & v & _ & ->).
  apply saturating_sub_in_range.
Qed.

(** The successful path of [claim_tokens] from a well-formed account. *)
Lemma claim_tokens_transfer_ok (tc : TransferPort) (dec : Z)
    (e : EmployeeAccount) (now c : Z) :
  wf_account e -> claimable_amount e now = Ok c -> c <> 0 ->
  tc (I64.as_u64 c) dec = None ->
  claim_tokens tc dec e now =
    mkOutcome (set_total_withdrawn e (total_withdrawn e + c))
              [I64.as_u64 c] (Ok tt).
Proof.
  intros Hwf Hc Hc0 Ht. unfold claim_tokens. rewrite Hc.
  apply Z.eqb_neq in Hc0. rewrite Hc0, Ht.
  pose proof Hc as Hc'. apply claimable_ok_inv in Hc' as (_ & v & Hv & ->).
  rewrite checked_add_in_range; [reflexivity|].
  apply add_claimable_in_range;
    [eapply vested_in_range; eauto | apply Hwf].
Qed.

Lemma claim_tokens_transfer_fails (tc : TransferPort) (dec : Z)
    (e : EmployeeAccount) (now c t : Z) :
  claimable_amount e now = Ok c -> c <> 0 ->
  tc (I64.as_u64 c) dec = Some t ->
  claim_tokens tc dec e now =
    mkOutcome e [I64.as_u64 c] (Err (TokenTransferError t)).
Proof.
  intros Hc Hc0 Ht. unfold claim_tokens. rewrite Hc.
  apply Z.eqb_neq in Hc0. rewrite Hc0, Ht. reflexivity.
Qed.

Lemma claim_tokens_nothing (tc : TransferPort) (dec : Z)
    (e : EmployeeAccount) (now : Z) :
  claimable_amount e now = Ok 0 ->
  claim_tokens tc dec e now = mkOutcome e [] (Err NothingToClaim).
Proof. intros Hc. unfold claim_tokens. rewrite Hc. reflexivity. Qed.

Lemma claim_tokens_error (tc : TransferPort) (dec : Z)
    (e : EmployeeAccount) (now : Z) (err : ErrorCode) :
  claimable_amount e now = Err err ->
  claim_tokens tc dec e now = mkOutcome e [] (Err err).
Proof. intros Hc. unfold claim_tokens. rewrite Hc. reflexivity. Qed.

(** Every run of [claim_tokens] on a well-formed account is one of four. *)
Lemma claim_tokens_cases (tc : TransferPort) (dec : Z)
    (e : EmployeeAccount) (now : Z) :
  wf_account e ->
  (exists err, claimable_amount e now = Err err /\
     claim_tokens tc dec e now = mkOutcome e [] (Err err)) \/
  (claimable_amount e now = Ok 0 /\
     claim_tokens tc dec e now = mkOutcome e [] (Err NothingToClaim)) \/
  (exists c t, claimable_amount e now = Ok c /\ c <> 0 /\
     tc (I64.as_u64 c) dec = Some t /\
     claim_tokens tc dec e now =
       mkOutcome e [I64.as_u64 c] (Err (TokenTransferError t))) \/
  (exists c, claimable_amount e now = Ok c /\ c <> 0 /\
     tc (I64.as_u64 c) dec = None /\
     claim_tokens tc dec e now =
       mkOutcome (set_total_withdrawn e (total_withdrawn e + c))
                 [I64.as_u64 c] (Ok tt)).
Proof.
  intros Hwf. destruct (claimable_amount e now) as [c|err] eqn:Hc.
  - destruct (Z.eq_dec c 0) as [->|Hc0].
    + right; left. split; [reflexivity|]. now apply claim_tokens_nothing.
    + destruct (tc (I64.as_u64 c) dec) as [t|] eqn:Ht.
      * right; right; left. exists c, t.
        repeat split; auto. now apply claim_tokens_transfer_fails.
      * right; right; right. exists c.
        repeat split; auto. now apply claim_tokens_transfer_ok.
  - left. exists err. split; [reflexivity|]. now apply claim_tokens_error.
Qed.

(** ** Claims *)

(** C2 (code_bug).  The source comment says [saturating_sub] keeps
    [time_since_start] from going below zero, but on [i64] it only clamps at
    [i64::MIN]: with [start_time = 10] and a claim at [now = 5] (allowed by
    [cliff_time = 0]) [time_since_start] is [-5], and with [end_time = 0]
    [total_vesting_time] is [-10]; the negative time reaches the claimable
    amount, which is [-50]. *)
Theorem C2_time_since_start_negative :
  I64.saturating_sub 5 (start_time (sched 10 20 100 0 0)) = -5 /\
  I64.saturating_sub (end_time (sched 10 0 100 0 0)) 10 = -10 /\
  vested_amount (sched 10 20 100 0 0) 5 = Ok (-50) /\
  claimable_amount (sched 10 20 100 0 0) 5 = Ok (-50).
Proof. repeat split; reflexivity. Qed.

(** C3 (claim as stated): a schedule with [start_time = end_time] fails
    with [InvalidVestingPeriod] for every [now].  Refuted: before the cliff
    the cliff check comes first and the error is [ClaimNotAvailableYet]. *)
Lemma C3_counterexample :
  outcome (claim_tokens transfer_ok 6 (sched 10 10 100 10 0) 5)
    = Err ClaimNotAvailableYet /\
  outcome (claim_tokens transfer_ok 6 (sched 10 10 100 10 0) 5)
    <> Err InvalidVestingPeriod.
Proof. split; [reflexivity | discriminate]. Qed.

(** C3 (amended): when [start_time = end_time], [claim_tokens] always
    fails without a transfer and without touching the account: with
    [ClaimNotAvailableYet] when [now < cliff_time], and with
    [InvalidVestingPeriod] for every [now >= cliff_time]. *)
Theorem C3_degenerate_schedule_rejected (tc : TransferPort) (dec : Z)
    (e : EmployeeAccount) (now : Z) :
  start_time e = end_time e ->
  claim_tokens tc dec e now =
    mkOutcome e []
      (Err (if now <? cliff_time e then ClaimNotAvailableYet
            else InvalidVestingPeriod)).
Proof.
  intros Hse. apply claim_tokens_error. unfold claimable_amount.
  destruct (now <? cliff_time e); [reflexivity|].
  unfold vested_amount. rewrite Hse.
  replace (I64.saturating_sub (end_time e) (end_time e)) with 0
    by (unfold I64.saturating_sub, I64.MIN, I64.MAX; lia).
  reflexivity.
Qed.

Lemma C3_degenerate_schedule_rejected_witness :
  start_time (sched 10 10 100 0 0) = end_time (sched 10 10 100 0 0) /\
  claim_tokens transfer_ok 6 (sched 10 10 100 0 0) 20 =
    mkOutcome (sched 10 10 100 0 0) [] (Err InvalidVestingPeriod).
Proof.
  split; [reflexivity|].
  exact (C3_degenerate_schedule_rejected transfer_ok 6 (sched 10 10 100 0 0) 20
           eq_refl).
Defined.

(** C4: before the cliff, [claim_tokens] fails with [ClaimNotAvailableYet],
    requests no transfer and leaves the account, in particular
    [total_withdrawn], as it was. *)
Theorem C4_claim_before_cliff (tc : TransferPort) (dec : Z)
    (e : EmployeeAccount) (now : Z) :
  now < cliff_time e ->
  claim_tokens tc dec e now = mkOutcome e [] (Err ClaimNotAvailableYet).
Proof.
  intros H. apply claim_tokens_error. unfold claimable_amount.
  apply Z.ltb_lt in H. now rewrite H.
Qed.

Lemma C4_claim_before_cliff_witness :
  9 < cliff_time (sched 0 100 1000 10 0) /\
  claim_tokens transfer_ok 6 (sched 0 100 1000 10 0) 9 =
    mkOutcome (sched 0 100 1000 10 0) [] (Err ClaimNotAvailableYet).
Proof.
  split; [cbn; lia|].
  apply (C4_claim_before_cliff transfer_ok 6 (sched 0 100 1000 10 0) 9).
  cbn; lia.
Defined.

(** C6: the schedule [start_time = 0], [end_time = 100],
    [total_amount = 1000], [cliff_time <= 50], as created.  A claim at
    [now = 50] vests [500] and transfers [500]; a second claim at
    [now = 100] transfers [500] more, leaving [total_withdrawn = 1000]. *)
Theorem C6_linear_midpoint (tc1 tc2 : TransferPort) (dec : Z)
    (key_b key_v bump_seed cliff : Z) :
  cliff <= 50 ->
  tc1 500 dec = None -> tc2 500 dec = None ->
  let e0 := create_employee_vesting key_b key_v bump_seed 0 100 1000 cliff in
  let o1 := claim_tokens tc1 dec e0 50 in
  let o2 := claim_tokens tc2 dec (acct o1) 100 in
  vested_amount e0 50 = Ok 500 /\
  o1 = mkOutcome (set_total_withdrawn e0 500) [500] (Ok tt) /\
  vested_amount (acct o1) 100 = Ok 1000 /\
  o2 = mkOutcome (set_total_withdrawn e0 1000) [500] (Ok tt).
Proof.
  intros Hcl H1 H2 e0 o1 o2.
  assert (Hc1 : claimable_amount e0 50 = Ok 500).
  { unfold claimable_amount. replace (50 <? cliff_time e0) with false
      by (symmetry; apply Z.ltb_ge; cbn; lia). reflexivity. }
  assert (Ho1 : o1 = mkOutcome (set_total_withdrawn e0 500) [500] (Ok tt)).
  { unfold o1, claim_tokens. rewrite Hc1. cbn. rewrite H1. reflexivity. }
  assert (Hc2 : claimable_amount (acct o1) 100 = Ok 500).
  { rewrite Ho1. unfold claimable_amount.
    replace (100 <? cliff_time _) with false
      by (symmetry; apply Z.ltb_ge; cbn; lia). reflexivity. }
  split; [reflexivity|]. split; [exact Ho1|].
  split; [rewrite Ho1; reflexivity|].
  unfold o2, claim_tokens. rewrite Hc2. cbn. rewrite H2. rewrite Ho1.
  reflexivity.
Qed.

Lemma C6_linear_midpoint_witness :
  let e0 := create_employee_vesting 1 2 255 0 100 1000 0 in
  claim_tokens transfer_ok 6 (acct (claim_tokens transfer_ok 6 e0 50)) 100 =
    mkOutcome (set_total_withdrawn e0 1000) [500] (Ok tt).
Proof.
  exact (proj2 (proj2 (proj2
    (C6_linear_midpoint transfer_ok transfer_ok 6 1 2 255 0
       ltac:(lia) eq_refl eq_refl)))).
Defined.

(** C8 (code_bug).  In the partial-vesting branch the product is
    overflow-checked, but the division that follows (commented as safe)
    is not: with [end_time = start_time - 1] the vesting time is [-1], and
    a product equal to [i64::MIN] makes [product / total_vesting_time]
    overflow, which panics instead of yielding a vested amount. *)
Theorem C8_quotient_overflow_panics (tc : TransferPort) (dec : Z) :
  let e := sched 10 9 (2 ^ 62) I64.MIN 0 in
  cliff_time e <= 8 < end_time e /\ end_time e <> start_time e /\
  I64.checked_mul (total_amount e) (I64.saturating_sub 8 (start_time e))
    = Some I64.MIN /\
  I64.saturating_sub (end_time e) (start_time e) = -1 /\
  vested_amount e 8 = Err ArithmeticPanic /\
  claim_tokens tc dec e 8 = mkOutcome e [] (Err ArithmeticPanic).
Proof.
  intros e. split; [unfold I64.MIN; cbn; lia|].
  split; [cbn; lia|]. repeat split; reflexivity.
Qed.

(** C10: a nonzero negative claimable amount passes the [== 0] check, is
    handed to the transfer as [claimable_amount as u64], that is plus
    [2^64], and when the transfer succeeds it is added to
    [total_withdrawn], which decreases. *)
Theorem C10_negative_claimable (tc : TransferPort) (dec : Z)
    (e : EmployeeAccount) (now c : Z) :
  wf_account e -> claimable_amount e now = Ok c -> c < 0 ->
  let o := claim_tokens tc dec e now in
  I64.as_u64 c = c + 2 ^ 64 /\
  transfers o = [c + 2 ^ 64] /\
  (tc (c + 2 ^ 64) dec = None ->
     outcome o = Ok tt /\
     total_withdrawn (acct o) = total_withdrawn e + c /\
     total_withdrawn (acct o) < total_withdrawn e).
Proof.
  intros Hwf Hc Hneg o.
  assert (Hu : I64.as_u64 c = c + 2 ^ 64)
    by (apply as_u64_neg; [eapply claimable_in_range; eauto | exact Hneg]).
  split; [exact Hu|].
  destruct (tc (c + 2 ^ 64) dec) as [t|] eqn:Ht.
  - split; [|discriminate].
    unfold o. rewrite (claim_tokens_transfer_fails tc dec e now c t Hc)
      by (lia || now rewrite Hu). cbn. now rewrite Hu.
  - unfold o. rewrite (claim_tokens_transfer_ok tc dec e now c Hwf Hc)
      by (lia || now rewrite Hu).
    cbn. rewrite Hu. split; [reflexivity|]. intros _.
    split; [reflexivity|]. split; [reflexivity | lia].
Qed.

(** The schedule whose cliff ([0]) lies before its start ([10]), claimed at
    [now = 5]: the claimable amount is [-50], [2^64 - 50] is requested, and
    a successful transfer sets [total_withdrawn] to [-50]. *)
Lemma C10_negative_claimable_witness :
  wf_account (sched 10 20 100 0 0) /\
  claimable_amount (sched 10 20 100 0 0) 5 = Ok (-50) /\
  transfers (claim_tokens transfer_ok 6 (sched 10 20 100 0 0) 5)
    = [-50 + 2 ^ 64] /\
  total_withdrawn (acct (claim_tokens transfer_ok 6 (sched 10 20 100 0 0) 5))
    = -50.
Proof.
  assert (Hwf : wf_account (sched 10 20 100 0 0))
    by (unfold wf_account, I64.in_range, I64.MIN, I64.MAX; cbn; lia).
  destruct (C10_negative_claimable transfer_ok 6 (sched 10 20 100 0 0) 5 (-50)
              Hwf eq_refl ltac:(lia)) as (_ & Htr & Hok).
  destruct (Hok eq_refl) as (_ & Hw & _).
  split; [exact Hwf|]. split; [reflexivity|]. split; [exact Htr|].
  rewrite Hw. reflexivity.
Defined.

(** C9: [claim_tokens] is atomic with the transfer.  Every failing run
    leaves the account as it was; a failing transfer is reported as such;
    the account changes only on a successful run, where
    [total_withdrawn] grows by the claimable amount whose transfer
    succeeded. *)
Theorem C9_transfer_atomic (tc : TransferPort) (dec : Z)
    (e : EmployeeAccount) (now : Z) :
  wf_account e ->
  let o := claim_tokens tc dec e now in
  (forall err, outcome o = Err err -> acct o = e) /\
  (forall c t, claimable_amount e now = Ok c -> c <> 0 ->
     tc (I64.as_u64 c) dec = Some t ->
     outcome o = Err (TokenTransferError t) /\ acct o = e) /\
  (outcome o = Ok tt ->
     exists c, claimable_amount e now = Ok c /\ c <> 0 /\
       tc (I64.as_u64 c) dec = None /\ transfers o = [I64.as_u64 c] /\
       acct o = set_total_withdrawn e (total_withdrawn e + c)) /\
  (total_withdrawn (acct o) <> total_withdrawn e -> outcome o = Ok tt).
Proof.
  intros Hwf o.
  destruct (claim_tokens_cases tc dec e now Hwf) as
    [(err & Hc & Ho) | [(Hc & Ho) | [(c & t & Hc & Hc0 & Ht & Ho)
                                    | (c & Hc & Hc0 & Ht & Ho)]]];
    unfold o; rewrite Ho; cbn.
  - split; [intros; reflexivity|].
    split; [intros c t Hc'; congruence|].
    split; [discriminate | intros H; congruence].
  - split; [intros; reflexivity|].
    split; [intros c t Hc' Hc0; rewrite Hc in Hc'; inversion Hc'; congruence|].
    split; [discriminate | intros H; congruence].
  - split; [intros; reflexivity|].
    split; [intros c' t' Hc' _ Ht'; rewrite Hc in Hc'; inversion Hc'; subst c';
            split; congruence|].
    split; [discriminate | intros H; congruence].
  - split; [intros err H; discriminate|].
    split; [intros c' t' Hc' _ Ht'; rewrite Hc in Hc'; inversion Hc'; subst c';
            congruence|].
    split; [intros _; exists c; repeat split; auto | intros _; reflexivity].
Qed.

Lemma C9_transfer_atomic_witness :
  wf_account (sched 0 100 1000 0 0) /\
  acct (claim_tokens (fun _ _ => Some 1) 6 (sched 0 100 1000 0 0) 50)
    = sched 0 100 1000 0 0.
Proof.
  assert (Hwf : wf_account (sched 0 100 1000 0 0))
    by (unfold wf_account, I64.in_range, I64.MIN, I64.MAX; cbn; lia).
  split; [exact Hwf|].
  destruct (C9_transfer_atomic (fun _ _ => Some 1) 6 (sched 0 100 1000 0 0) 50
              Hwf) as (Herr & _).
  apply (Herr (TokenTransferError 1)). reflexivity.
Defined.

(** ** The vested amount on a well-formed schedule *)

Lemma vested_set_withdrawn (e : EmployeeAccount) (w now : Z) :
  vested_amount (set_total_withdrawn e w) now = vested_amount e now.
Proof. reflexivity. Qed.

(** From [start_time <= now < end_time] the computation takes the linear
    branch with a positive vesting time. *)
Lemma vested_linear (e : EmployeeAccount) (now v : Z) :
  wf_account e -> start_time e <= now < end_time e ->
  vested_amount e now = Ok v ->
  let tss := I64.saturating_sub now (start_time e) in
  let tv := I64.saturating_sub (end_time e) (start_time e) in
  0 <= tss <= tv /\ 0 < tv /\
  I64.in_range (total_amount e * tss) /\
  v = Z.quot (total_amount e * tss) tv.
Proof.
  intros Hwf Hnow Hv tss tv.
  assert (Htss : 0 <= tss) by (apply saturating_sub_nonneg; lia).
  assert (Hle : tss <= tv) by (apply saturating_sub_mono_l; lia).
  assert (Htv : 0 < tv).
  { destruct Hwf as (Hs & He & _). unfold tv.
    assert (I64.saturating_sub (end_time e) (start_time e) <> 0)
      by (rewrite saturating_sub_zero by assumption; lia).
    fold tv in H |- *. lia. }
  revert Hv. unfold vested_amount. fold tss tv.
  replace (tv =? 0) with false by (symmetry; apply Z.eqb_neq; lia).
  replace (end_time e <=? now) with false by (symmetry; apply Z.leb_gt; lia).
  destruct (I64.checked_mul (total_amount e) tss) as [p|] eqn:Hp;
    [|discriminate].
  apply checked_mul_some in Hp as [-> Hp].
  unfold I64.checked_div.
  replace (tv =? 0) with false by (symmetry; apply Z.eqb_neq; lia).
  replace (tv =? -1) with false by (symmetry; apply Z.eqb_neq; lia).
  rewrite andb_false_r. intros H; inversion H; subst v.
  repeat split; try lia; apply Hp.
Qed.

Lemma vested_bounds (e : EmployeeAccount) (now v : Z) :
  wf_account e -> 0 <= total_amount e -> start_time e <= now ->
  vested_amount e now = Ok v -> 0 <= v <= total_amount e.
Proof.
  intros Hwf Htot Hs Hv.
  destruct (Z.le_gt_cases (end_time e) now) as [Hend | Hend].
  - revert Hv. unfold vested_amount.
    destruct (_ =? 0); [discriminate|].
    replace (end_time e <=? now) with true by (symmetry; apply Z.leb_le; lia).
    intros H; inversion H; lia.
  - destruct (vested_linear e now v Hwf ltac:(lia) Hv)
      as (Htss & Htv & _ & ->).
    rewrite Z.quot_div_nonneg by nia.
    split; [apply Z.div_pos; nia|].
    apply Z.div_le_upper_bound; nia.
Qed.

Lemma vested_mono (e : EmployeeAccount) (t1 t2 v1 v2 : Z) :
  wf_account e -> 0 <= total_amount e -> start_time e <= t1 -> t1 <= t2 ->
  vested_amount e t1 = Ok v1 -> vested_amount e t2 = Ok v2 -> v1 <= v2.
Proof.
  intros Hwf Htot Hs H12 Hv1 Hv2.
  destruct (Z.le_gt_cases (end_time e) t2) as [Hend | Hend].
  - assert (v2 = total_amount e).
    { revert Hv2. unfold vested_amount.
      destruct (_ =? 0); [discriminate|].
      replace (end_time e <=? t2) with true by (symmetry; apply Z.leb_le; lia).
      intros H; inversion H; reflexivity. }
    subst v2. eapply vested_bounds; eauto.
  - destruct (vested_linear e t1 v1 Hwf ltac:(lia) Hv1)
      as (Htss1 & Htv & _ & ->).
    destruct (vested_linear e t2 v2 Hwf ltac:(lia) Hv2)
      as (Htss2 & _ & _ & ->).
    assert (I64.saturating_sub t1 (start_time e)
              <= I64.saturating_sub t2 (start_time e))
      by (apply saturating_sub_mono_l; lia).
    rewrite !Z.quot_div_nonneg by nia.
    apply Z.div_le_mono; nia.
Qed.

(** Past [end_time] with [start_time < end_time], the vested amount is
    [total_amount] and the claimable amount is [total_amount -
    total_withdrawn] saturated to the [i64] range. *)
Lemma full_vesting_claimable (e : EmployeeAccount) (now : Z) :
  wf_account e -> start_time e < end_time e ->
  cliff_time e <= now -> end_time e <= now ->
  vested_amount e now = Ok (total_amount e) /\
  claimable_amount e now =
    Ok (I64.saturating_sub (total_amount e) (total_withdrawn e)) /\
  (I64.in_range (total_amount e - total_withdrawn e) ->
   claimable_amount e now = Ok (total_amount e - total_withdrawn e)).
Proof.
  intros Hwf Hse Hcl Hend.
  assert (Hv : vested_amount e now = Ok (total_amount e)).
  { unfold vested_amount.
    destruct Hwf as (Hs & He & _).
    replace (I64.saturating_sub (end_time e) (start_time e) =? 0) with false
      by (symmetry; apply Z.eqb_neq; rewrite saturating_sub_zero by assumption;
          lia).
    replace (end_time e <=? now) with true by (symmetry; apply Z.leb_le; lia).
    reflexivity. }
  assert (Hc : claimable_amount e now =
                 Ok (I64.saturating_sub (total_amount e) (total_withdrawn e))).
  { unfold claimable_amount.
    replace (now <? cliff_time e) with false by (symmetry; apply Z.ltb_ge; lia).
    rewrite Hv. reflexivity. }
  split; [exact Hv|]. split; [exact Hc|].
  intros Hr. rewrite Hc, saturating_sub_exact by exact Hr. reflexivity.
Qed.

(** If a claim at [now] succeeds and the vested amount minus
    [total_withdrawn] is an [i64], the repeated claim at the same [now]
    finds nothing to claim. *)
Lemma replay_nothing_to_claim (tc1 tc2 : TransferPort) (dec : Z)
    (e : EmployeeAccount) (now v : Z) :
  wf_account e ->
  outcome (claim_tokens tc1 dec e now) = Ok tt ->
  vested_amount e now = Ok v ->
  I64.in_range (v - total_withdrawn e) ->
  let e1 := acct (claim_tokens tc1 dec e now) in
  claimable_amount e1 now = Ok 0 /\
  claim_tokens tc2 dec e1 now = mkOutcome e1 [] (Err NothingToClaim).
Proof.
  intros Hwf Hok Hv Hr e1.
  destruct (claim_tokens_cases tc1 dec e now Hwf) as
    [(err & _ & Ho) | [(_ & Ho) | [(c & t & _ & _ & _ & Ho)
                                  | (c & Hc & _ & _ & Ho)]]];
    rewrite Ho in Hok; try discriminate.
  apply claimable_ok_inv in Hc as (Hcl & v' & Hv' & Hcv).
  rewrite Hv in Hv'. inversion Hv'; subst v'. clear Hv'.
  rewrite saturating_sub_exact in Hcv by exact Hr. subst c.
  assert (He1 : e1 = set_total_withdrawn e v)
    by (unfold e1; rewrite Ho; cbn; f_equal; lia).
  assert (Hc0 : claimable_amount e1 now = Ok 0).
  { rewrite He1. unfold claimable_amount.
    replace (now <? cliff_time _) with false
      by (symmetry; apply Z.ltb_ge; cbn; lia).
    rewrite vested_set_withdrawn, Hv. cbn.
    rewrite saturating_sub_exact, Z.sub_diag; [reflexivity|].
    unfold I64.in_range, I64.MIN, I64.MAX. lia. }
  split; [exact Hc0|]. now apply claim_tokens_nothing.
Qed.

(** A schedule created with its cliff at [i64::MIN], before its start, and
    one successful claim at [now = -(2^63 - 1)], before the start: the
    negative [time_since_start] of C2 gives a negative claimable amount,
    which drives [total_withdrawn] down to [-(2^63 - 1)]. *)
Definition early_cliff_schedule : EmployeeAccount :=
  create_employee_vesting 1 2 255 0 1 1 I64.MIN.

Definition early_cliff_after_claim : EmployeeAccount :=
  acct (claim_tokens transfer_ok 6 early_cliff_schedule (- I64.MAX)).

(** C5 (code_bug): once fully vested the claimable amount is exactly
    [total_amount - total_withdrawn].  It fails only through the defect of
    C2: on the schedule above, the claim before [start_time] sees
    [time_since_start = -(2^63 - 1)] and pays a negative amount, leaving
    [total_withdrawn = -(2^63 - 1)]; at [now = 1 >= end_time] the difference
    [total_amount - total_withdrawn] is [2^63], and [saturating_sub] yields
    [2^63 - 1]. *)
Theorem C5_full_vesting_saturates :
  I64.saturating_sub (- I64.MAX) (start_time early_cliff_schedule) = - I64.MAX /\
  claimable_amount early_cliff_schedule (- I64.MAX) = Ok (- I64.MAX) /\
  outcome (claim_tokens transfer_ok 6 early_cliff_schedule (- I64.MAX)) = Ok tt /\
  total_withdrawn early_cliff_after_claim = - I64.MAX /\
  vested_amount early_cliff_after_claim 1 = Ok 1 /\
  total_amount early_cliff_after_claim
    - total_withdrawn early_cliff_after_claim = I64.MAX + 1 /\
  claimable_amount early_cliff_after_claim 1 = Ok I64.MAX.
Proof. repeat split; reflexivity. Qed.

(** C7 (code_bug): after a successful claim, the same claim at the same
    [now] fails with [NothingToClaim].  It fails only through the defect of
    C2: on the account left by the claim before [start_time] above, the
    claim at [now = 1] saturates and transfers only [2^63 - 1] of the
    [2^63] due, so the repeated claim at [now = 1] finds [1] to claim and
    succeeds again. *)
Theorem C7_replay_pays_again :
  I64.saturating_sub (- I64.MAX) (start_time early_cliff_schedule) = - I64.MAX /\
  total_withdrawn early_cliff_after_claim = - I64.MAX /\
  outcome (claim_tokens transfer_ok 6 early_cliff_after_claim 1) = Ok tt /\
  claimable_amount (acct (claim_tokens transfer_ok 6 early_cliff_after_claim 1)) 1
    = Ok 1 /\
  outcome (claim_tokens transfer_ok 6
             (acct (claim_tokens transfer_ok 6 early_cliff_after_claim 1)) 1)
    = Ok tt.
Proof. repeat split; reflexivity. Qed.

(** ** Runs of [claim_tokens] from a created schedule *)

(** The schedules reachable at clock time [t]: created by
    [create_employee_vesting] with [i64] arguments, [total_amount >= 0] and
    [start_time <= cliff_time], then claimed at non-decreasing times with
    any outcome of the transfer port. *)
Inductive reachable : Z -> EmployeeAccount -> Prop :=
| reach_create (t key_b key_v bump_seed st en total cliff : Z) :
    I64.in_range st -> I64.in_range en -> I64.in_range total ->
    I64.in_range cliff -> 0 <= total -> st <= cliff ->
    reachable t (create_employee_vesting key_b key_v bump_seed st en total cliff)
| reach_claim (t now : Z) (tc : TransferPort) (dec : Z) (e : EmployeeAccount) :
    reachable t e -> t <= now ->
    reachable now (acct (claim_tokens tc dec e now)).

(** The invariant of a schedule observed at time [t]. *)
Definition vesting_inv (t : Z) (e : EmployeeAccount) : Prop :=
  wf_account e /\ 0 <= total_amount e /\ start_time e <= cliff_time e /\
  0 <= total_withdrawn e <= total_amount e /\
  (forall t' v, t <= t' -> cliff_time e <= t' -> vested_amount e t' = Ok v ->
     total_withdrawn e <= v <= total_amount e).

Lemma vesting_inv_later (t now : Z) (e : EmployeeAccount) :
  vesting_inv t e -> t <= now -> vesting_inv now e.
Proof.
  intros (Hwf & Htot & Hsc & Hw & Hv) Hle.
  split; [exact Hwf|]. split; [exact Htot|]. split; [exact Hsc|].
  split; [exact Hw|].
  intros t' v Ht' Hc' Hv'. apply (Hv t' v); auto; lia.
Qed.

Lemma vesting_inv_claim (t now : Z) (tc : TransferPort) (dec : Z)
    (e : EmployeeAccount) :
  vesting_inv t e -> t <= now ->
  vesting_inv now (acct (claim_tokens tc dec e now)) /\
  total_withdrawn e <= total_withdrawn (acct (claim_tokens tc dec e now)).
Proof.
  intros Hinv Hle. pose proof Hinv as (Hwf & Htot & Hsc & Hw & Hvb).
  destruct (claim_tokens_cases tc dec e now Hwf) as
    [(err & _ & Ho) | [(_ & Ho) | [(c & t0 & _ & _ & _ & Ho)
                                  | (c & Hc & _ & _ & Ho)]]];
    rewrite Ho; cbn [acct total_withdrawn];
    try (split; [eapply vesting_inv_later; eauto | lia]).
  apply claimable_ok_inv in Hc as (Hcl & v & Hv & ->).
  assert (Hwv : total_withdrawn e <= v <= total_amount e)
    by (apply (Hvb now v); auto; lia).
  destruct Hwf as (Hs & He & Ht & Hwr & Hc).
  assert (Hcv : I64.saturating_sub v (total_withdrawn e)
                = v - total_withdrawn e)
    by (apply saturating_sub_exact;
        unfold I64.in_range, I64.MIN, I64.MAX in *; lia).
  rewrite Hcv.
  replace (total_withdrawn e + (v - total_withdrawn e)) with v by lia.
  split; [|cbn; lia].
  assert (Hwf' : wf_account (set_total_withdrawn e v))
    by (unfold wf_account; cbn; repeat split; auto;
        unfold I64.in_range, I64.MIN, I64.MAX in *; lia).
  split; [exact Hwf'|]. cbn.
  split; [exact Htot|]. split; [exact Hsc|]. split; [lia|].
  intros t' v' Ht' Hc' Hv'. rewrite vested_set_withdrawn in Hv'.
  assert (Hwf0 : wf_account e) by exact (conj Hs (conj He (conj Ht (conj Hwr Hc)))).
  split.
  - apply (vested_mono e now t' v v' Hwf0 Htot); auto; lia.
  - apply (vested_bounds e t' v' Hwf0 Htot); auto; lia.
Qed.

Lemma reachable_inv (t : Z) (e : EmployeeAccount) :
  reachable t e -> vesting_inv t e.
Proof.
  induction 1 as [t kb kv bs st en total cliff Hst Hen Htot Hcl Hpos Hsc
                 | t now tc dec e Hr IH Hle].
  - assert (Hwf : wf_account
                    (create_employee_vesting kb kv bs st en total cliff))
      by (unfold wf_account; cbn; repeat split;
          unfold I64.in_range, I64.MIN, I64.MAX in *; lia).
    split; [exact Hwf|]. cbn.
    split; [exact Hpos|]. split; [exact Hsc|]. split; [lia|].
    intros t' v Ht' Hc' Hv.
    apply (vested_bounds _ t' v Hwf); auto; cbn; lia.
  - eapply vesting_inv_claim; eauto.
Qed.

(** C1 (claim as stated): [total_withdrawn <= vested_amount(now) <=
    total_amount] for every schedule.  Refuted by a schedule created with
    a negative [total_amount], which [create_employee_vesting] accepts:
    at [now = 50] the vested amount [-50] lies below
    [total_withdrawn = 0] and above [total_amount = -100], and a successful
    claim there lowers [total_withdrawn] to [-50]. *)
Lemma C1_counterexample :
  let e := create_employee_vesting 1 2 255 0 100 (-100) 0 in
  total_withdrawn e = 0 /\ vested_amount e 50 = Ok (-50) /\
  ~ (total_withdrawn e <= -50 <= total_amount e) /\
  total_withdrawn (acct (claim_tokens transfer_ok 6 e 50)) = -50.
Proof.
  intros e. split; [reflexivity|]. split; [reflexivity|].
  split; [cbn; lia | reflexivity].
Qed.

(** C1 (amended): for a schedule created with [total_amount >= 0] and
    [start_time <= cliff_time] and claimed at non-decreasing times, whatever
    the transfers do: [0 <= total_withdrawn <= total_amount]; from the
    last claim's time on, at every time past the cliff where the vested
    amount is computed, [total_withdrawn <= vested_amount <= total_amount];
    and a further claim never decreases [total_withdrawn]. *)
Theorem C1_withdrawn_bounded (t : Z) (e : EmployeeAccount) :
  reachable t e ->
  (0 <= total_withdrawn e <= total_amount e) /\
  (forall t' v, t <= t' -> cliff_time e <= t' -> vested_amount e t' = Ok v ->
     total_withdrawn e <= v <= total_amount e) /\
  (forall tc dec now, t <= now ->
     total_withdrawn e <= total_withdrawn (acct (claim_tokens tc dec e now))).
Proof.
  intros Hr. pose proof (reachable_inv t e Hr) as Hinv.
  destruct Hinv as (_ & _ & _ & Hw & Hv).
  split; [exact Hw|]. split; [exact Hv|].
  intros tc dec now Hle.
  exact (proj2 (vesting_inv_claim t now tc dec e (reachable_inv t e Hr) Hle)).
Qed.

Lemma C1_withdrawn_bounded_witness :
  reachable 50 (acct (claim_tokens transfer_ok 6
                        (create_employee_vesting 1 2 255 0 100 1000 0) 50)) /\
  total_withdrawn (acct (claim_tokens transfer_ok 6
                        (create_employee_vesting 1 2 255 0 100 1000 0) 50))
    <= 1000.
Proof.
  assert (Hr : reachable 50 (acct (claim_tokens transfer_ok 6
                 (create_employee_vesting 1 2 255 0 100 1000 0) 50))).
  { apply reach_claim with (t := 0); [|lia].
    apply reach_create; unfold I64.in_range, I64.MIN, I64.MAX; lia. }
  split; [exact Hr|].
  exact (proj2 (proj1 (C1_withdrawn_bounded _ _ Hr))).
Defined.

(** ** Further properties of [claim_tokens] *)

(** Extra: on a schedule reachable through the instructions (created with
    [total_amount >= 0] and [start_time <= cliff_time], then claimed at
    non-decreasing times) with [start_time < end_time], at every [now] past
    [cliff_time] and [end_time] the vested amount is [total_amount] and the
    claimable amount is exactly [total_amount - total_withdrawn]. *)
Theorem reachable_full_vesting_exact (t now : Z) (e : EmployeeAccount) :
  reachable t e -> start_time e < end_time e ->
  cliff_time e <= now -> end_time e <= now ->
  vested_amount e now = Ok (total_amount e) /\
  claimable_amount e now = Ok (total_amount e - total_withdrawn e).
Proof.
  intros Hr Hse Hcl Hend.
  destruct (reachable_inv t e Hr) as (Hwf & _ & _ & Hw & _).
  destruct (full_vesting_claimable e now Hwf Hse Hcl Hend) as (Hv & _ & Hex).
  split; [exact Hv|]. apply Hex.
  destruct Hwf as (_ & _ & Htot & _ & _).
  unfold I64.in_range, I64.MIN, I64.MAX in *. lia.
Qed.

Lemma reachable_full_vesting_exact_witness :
  claimable_amount (acct (claim_tokens transfer_ok 6
                      (create_employee_vesting 1 2 255 0 100 1000 0) 50)) 150
    = Ok 500.
Proof.
  assert (Hr : reachable 50 (acct (claim_tokens transfer_ok 6
                 (create_employee_vesting 1 2 255 0 100 1000 0) 50))).
  { apply reach_claim with (t := 0); [|lia].
    apply reach_create; unfold I64.in_range, I64.MIN, I64.MAX; lia. }
  exact (proj2 (reachable_full_vesting_exact 50 150 _ Hr
                  ltac:(cbn; lia) ltac:(cbn; lia) ltac:(cbn; lia))).
Defined.

(** Extra: on a schedule reachable through the instructions, a claim that
    succeeds is never followed by a second successful claim at the same
    [now]: the repeated claim finds nothing to claim and fails with
    [NothingToClaim], with no transfer and the account unchanged. *)
Theorem reachable_replay_nothing_to_claim (t now : Z) (tc1 tc2 : TransferPort)
    (dec : Z) (e : EmployeeAccount) :
  reachable t e ->
  outcome (claim_tokens tc1 dec e now) = Ok tt ->
  let e1 := acct (claim_tokens tc1 dec e now) in
  claimable_amount e1 now = Ok 0 /\
  claim_tokens tc2 dec e1 now = mkOutcome e1 [] (Err NothingToClaim).
Proof.
  intros Hr Hok.
  destruct (reachable_inv t e Hr) as (Hwf & Htot & Hsc & Hw & _).
  destruct (claim_tokens_cases tc1 dec e now Hwf) as
    [(err & _ & Ho) | [(_ & Ho) | [(c & t' & _ & _ & _ & Ho)
                                  | (c & Hc & _ & _ & Ho)]]];
    rewrite Ho in Hok; try discriminate.
  apply claimable_ok_inv in Hc as (Hcl & v & Hv & _).
  pose proof (vested_bounds e now v Hwf Htot ltac:(lia) Hv) as Hvb.
  apply (replay_nothing_to_claim tc1 tc2 dec e now v Hwf); [|exact Hv|].
  - rewrite Ho. reflexivity.
  - destruct Hwf as (_ & _ & Hrt & _ & _).
    unfold I64.in_range, I64.MIN, I64.MAX in *. lia.
Qed.

Lemma reachable_replay_nothing_to_claim_witness :
  claim_tokens transfer_ok 6
    (acct (claim_tokens transfer_ok 6 (create_employee_vesting 1 2 255 0 100 1000 0) 50)) 50 =
    mkOutcome (acct (claim_tokens transfer_ok 6
                 (create_employee_vesting 1 2 255 0 100 1000 0) 50))
              [] (Err NothingToClaim).
Proof.
  assert (Hr : reachable 0 (create_employee_vesting 1 2 255 0 100 1000 0))
    by (apply reach_create; unfold I64.in_range, I64.MIN, I64.MAX; lia).
  exact (proj2 (reachable_replay_nothing_to_claim 0 50 transfer_ok transfer_ok 6
                  _ Hr eq_refl)).
Defined.


(** What a claim actually paid out: the transfers of a successful run. *)
Definition paid_amount (o : ClaimOutcome) : Z :=
  match outcome o with
  | Ok _ => fold_right Z.add 0 (transfers o)
  | Err _ => 0
  end.

(** A sequence of [claim_tokens] instructions on one employee account, each
    at its clock time with its own transfer outcome; returns the final
    account and the total paid out. *)
Fixpoint run_claims (dec : Z) (e : EmployeeAccount)
    (steps : list (Z * TransferPort)) : EmployeeAccount * Z :=
  match steps with
  | [] => (e, 0)
  | (now, tc) :: rest =>
      let o := claim_tokens tc dec e now in
      let '(e', p) := run_claims dec (acct o) rest in
      (e', paid_amount o + p)
  end.

(** The clock times of the steps never go back, starting from [t]. *)
Fixpoint times_from (t : Z) (steps : list (Z * TransferPort)) : Prop :=
  match steps with
  | [] => True
  | (now, _) :: rest => t <= now /\ times_from now rest
  end.

Lemma claim_paid_step (t now : Z) (tc : TransferPort) (dec : Z)
    (e : EmployeeAccount) :
  vesting_inv t e -> t <= now ->
  let o := claim_tokens tc dec e now in
  total_withdrawn (acct o) = total_withdrawn e + paid_amount o /\
  0 <= paid_amount o /\ total_amount (acct o) = total_amount e.
Proof.
  intros Hinv Hle o. pose proof Hinv as (Hwf & Htot & Hsc & Hw & Hvb).
  destruct (claim_tokens_cases tc dec e now Hwf) as
    [(err & _ & Ho) | [(_ & Ho) | [(c & t0 & _ & _ & _ & Ho)
                                  | (c & Hc & Hc0 & _ & Ho)]]];
    unfold o, paid_amount; rewrite Ho; cbn [acct outcome transfers];
    try (split; [lia | split; [lia | reflexivity]]).
  apply claimable_ok_inv in Hc as (Hcl & v & Hv & Hcv).
  assert (Hwv : total_withdrawn e <= v <= total_amount e)
    by (apply (Hvb now v); auto; lia).
  destruct Hwf as (Hs & He & Ht & Hwr & Hcr).
  rewrite saturating_sub_exact in Hcv
    by (unfold I64.in_range, I64.MIN, I64.MAX in *; lia).
  rewrite as_u64_pos by (rewrite Hcv; unfold I64.in_range, I64.MIN, I64.MAX in *; lia).
  cbn. lia.
Qed.

Lemma run_claims_paid (dec : Z) (steps : list (Z * TransferPort)) :
  forall (t : Z) (e : EmployeeAccount), reachable t e -> times_from t steps ->
  let '(e', p) := run_claims dec e steps in
  total_withdrawn e' = total_withdrawn e + p /\ 0 <= p /\
  total_withdrawn e' <= total_amount e' /\ total_amount e' = total_amount e.
Proof.
  induction steps as [|[now tc] rest IH]; intros t e Hr Ht.
  - cbn. pose proof (reachable_inv t e Hr) as (_ & _ & _ & Hw & _). lia.
  - destruct Ht as [Hle Ht]. cbn [run_claims].
    pose proof (reach_claim t now tc dec e Hr Hle) as Hr'.
    specialize (IH now _ Hr' Ht).
    destruct (run_claims dec (acct (claim_tokens tc dec e now)) rest) as [e' p].
    destruct (claim_paid_step t now tc dec e (reachable_inv t e Hr) Hle)
      as (Hs1 & Hs2 & Hs3).
    lia.
Qed.

(** Extra: from a freshly created schedule ([total_amount >= 0],
    [start_time <= cliff_time]), any sequence of claims at non-decreasing
    times pays out exactly the final [total_withdrawn], and never more than
    [total_amount] in all. *)
Theorem run_claims_pays_withdrawn (dec t : Z) (steps : list (Z * TransferPort))
    (key_b key_v bump_seed st en total cliff : Z) :
  I64.in_range st -> I64.in_range en -> I64.in_range total ->
  I64.in_range cliff -> 0 <= total -> st <= cliff -> times_from t steps ->
  let '(e', p) :=
    run_claims dec (create_employee_vesting key_b key_v bump_seed st en total cliff)
      steps in
  p = total_withdrawn e' /\ 0 <= p <= total.
Proof.
  intros Hst Hen Htot Hcl Hpos Hsc Ht.
  pose proof (run_claims_paid dec steps t _
                (reach_create t key_b key_v bump_seed st en total cliff
                   Hst Hen Htot Hcl Hpos Hsc) Ht) as H.
  destruct (run_claims dec _ steps) as [e' p]. cbn in H. lia.
Qed.

Lemma run_claims_pays_withdrawn_witness :
  let '(e', p) :=
    run_claims 6 (create_employee_vesting 1 2 255 0 100 1000 0)
      [(50, transfer_ok); (50, transfer_ok); (120, transfer_ok)] in
  p = total_withdrawn e' /\ 0 <= p <= 1000.
Proof.
  apply (run_claims_pays_withdrawn 6 0); unfold I64.in_range, I64.MIN, I64.MAX;
    cbn; lia.
Defined.

(** Extra: once a schedule created as above has paid out all of
    [total_amount], every later claim fails, with no transfer and the
    account unchanged. *)
Theorem drained_schedule_claims_fail (t now : Z) (tc : TransferPort) (dec : Z)
    (e : EmployeeAccount) :
  reachable t e -> total_withdrawn e = total_amount e -> t <= now ->
  exists err, claim_tokens tc dec e now = mkOutcome e [] (Err err).
Proof.
  intros Hr Hdone Hle.
  pose proof (reachable_inv t e Hr) as (Hwf & Htot & Hsc & Hw & Hvb).
  destruct (claim_tokens_cases tc dec e now Hwf) as
    [(err & _ & Ho) | [(_ & Ho) | [(c & t0 & Hc & Hc0 & _ & _)
                                  | (c & Hc & Hc0 & _ & _)]]];
    try (eexists; exact Ho);
    apply claimable_ok_inv in Hc as (Hcl & v & Hv & ->);
    assert (Hwv : total_withdrawn e <= v <= total_amount e)
      by (apply (Hvb now v); auto; lia);
    exfalso; apply Hc0;
    apply saturating_sub_zero; try apply Hwf; try lia;
    eapply vested_in_range; eauto.
Qed.

Lemma drained_schedule_claims_fail_witness :
  exists err,
    claim_tokens transfer_ok 6
      (acct (claim_tokens transfer_ok 6
               (create_employee_vesting 1 2 255 0 100 1000 0) 100)) 200 =
    mkOutcome (acct (claim_tokens transfer_ok 6
               (create_employee_vesting 1 2 255 0 100 1000 0) 100)) []
              (Err err).
Proof.
  apply (drained_schedule_claims_fail 100 200 transfer_ok 6); [| reflexivity | lia].
  apply reach_claim with (t := 0); [|lia].
  apply reach_create; unfold I64.in_range, I64.MIN, I64.MAX; lia.
Defined.

(** Extra: on a schedule with [total_amount >= 0], the vested amount never
    decreases with time from [start_time] on (wherever it is computed). *)
Theorem vested_amount_monotone (e : EmployeeAccount) (t1 t2 v1 v2 : Z) :
  wf_account e -> 0 <= total_amount e -> start_time e <= t1 -> t1 <= t2 ->
  vested_amount e t1 = Ok v1 -> vested_amount e t2 = Ok v2 -> v1 <= v2.
Proof. apply vested_mono. Qed.

Lemma vested_amount_monotone_witness :
  wf_account (sched 0 100 1000 0 0) /\ 500 <= 730.
Proof.
  assert (Hwf : wf_account (sched 0 100 1000 0 0))
    by (unfold wf_account, I64.in_range, I64.MIN, I64.MAX; cbn; lia).
  split; [exact Hwf|].
  apply (vested_amount_monotone (sched 0 100 1000 0 0) 50 73 500 730 Hwf);
    cbn; (lia || reflexivity).
Defined.

(** Extra: with [total_amount >= 0], a [CalculationOverflow] at a time [t]
    past [start_time] persists at every later time before [end_time], and
    from [end_time] on the vested amount is [total_amount]: the overflow
    window is an interval ending at [end_time]. *)
Theorem overflow_window (e : EmployeeAccount) (t t' : Z) :
  wf_account e -> 0 <= total_amount e -> start_time e <= t -> t <= t' ->
  vested_amount e t = Err CalculationOverflow ->
  (t' < end_time e -> vested_amount e t' = Err CalculationOverflow) /\
  (end_time e <= t' -> vested_amount e t' = Ok (total_amount e)).
Proof.
  intros Hwf Htot Hs Hle Hov. revert Hov. unfold vested_amount.
  destruct (_ =? 0) eqn:Htv; [discriminate|].
  destruct (end_time e <=? t) eqn:Hend; [discriminate|].
  apply Z.leb_gt in Hend.
  destruct (I64.checked_mul (total_amount e) (I64.saturating_sub t (start_time e)))
    eqn:Hm; [destruct (I64.checked_div _ _); discriminate|].
  intros _. apply checked_mul_none in Hm.
  assert (Hmono : I64.saturating_sub t (start_time e)
                  <= I64.saturating_sub t' (start_time e))
    by (apply saturating_sub_mono_l; lia).
  assert (Hnn : 0 <= I64.saturating_sub t (start_time e))
    by (apply saturating_sub_nonneg; lia).
  split.
  - intros Ht'. replace (end_time e <=? t') with false
      by (symmetry; apply Z.leb_gt; lia).
    replace (I64.checked_mul (total_amount e) (I64.saturating_sub t' (start_time e)))
      with (@None Z); [reflexivity|].
    symmetry. apply checked_mul_none. unfold I64.in_range, I64.MIN, I64.MAX in *.
    nia.
  - intros Ht'. replace (end_time e <=? t') with true
      by (symmetry; apply Z.leb_le; lia). reflexivity.
Qed.

Lemma overflow_window_witness :
  vested_amount (sched 0 100 I64.MAX 0 0) 50 = Err CalculationOverflow /\
  vested_amount (sched 0 100 I64.MAX 0 0) 99 = Err CalculationOverflow.
Proof.
  assert (Hwf : wf_account (sched 0 100 I64.MAX 0 0))
    by (unfold wf_account, I64.in_range, I64.MIN, I64.MAX; cbn; lia).
  assert (Hov : vested_amount (sched 0 100 I64.MAX 0 0) 50
                = Err CalculationOverflow) by reflexivity.
  split; [exact Hov|].
  apply (overflow_window (sched 0 100 I64.MAX 0 0) 50 99 Hwf); auto;
    cbn; unfold I64.MAX; lia.
Defined.

(** A schedule whose cliff is not before its start never reaches the
    unchecked division: [vested_amount] does not panic from [start_time] on. *)
Lemma vested_no_panic (e : EmployeeAccount) (now : Z) :
  wf_account e -> start_time e <= now ->
  vested_amount e now <> Err ArithmeticPanic.
Proof.
  intros Hwf Hs. unfold vested_amount.
  destruct (_ =? 0) eqn:Htv; [discriminate|].
  destruct (end_time e <=? now) eqn:Hend; [discriminate|].
  apply Z.leb_gt in Hend. apply Z.eqb_neq in Htv.
  assert (Hpos : 0 < I64.saturating_sub (end_time e) (start_time e)).
  { assert (I64.saturating_sub now (start_time e)
              <= I64.saturating_sub (end_time e) (start_time e))
      by (apply saturating_sub_mono_l; lia).
    assert (0 <= I64.saturating_sub now (start_time e))
      by (apply saturating_sub_nonneg; lia). lia. }
  destruct (I64.checked_mul _ _) as [p|]; [|discriminate].
  unfold I64.checked_div.
  replace (I64.saturating_sub (end_time e) (start_time e) =? 0) with false
    by (symmetry; apply Z.eqb_neq; lia).
  replace (I64.saturating_sub (end_time e) (start_time e) =? -1) with false
    by (symmetry; apply Z.eqb_neq; lia).
  rewrite andb_false_r. discriminate.
Qed.

(** Extra: on an account whose [cliff_time] is not before its
    [start_time], [claim_tokens] never ends in an arithmetic panic: every
    failure is one of the program's errors or the transfer's. *)
Theorem claim_tokens_no_panic (tc : TransferPort) (dec : Z)
    (e : EmployeeAccount) (now : Z) :
  wf_account e -> start_time e <= cliff_time e ->
  outcome (claim_tokens tc dec e now) <> Err ArithmeticPanic.
Proof.
  intros Hwf Hsc.
  destruct (claim_tokens_cases tc dec e now Hwf) as
    [(err & Hc & Ho) | [(_ & Ho) | [(c & t0 & _ & _ & _ & Ho)
                                  | (c & _ & _ & _ & Ho)]]];
    rewrite Ho; cbn; try discriminate.
  revert Hc. unfold claimable_amount.
  destruct (now <? cliff_time e) eqn:Hcl; [intros H; inversion H; discriminate|].
  apply Z.ltb_ge in Hcl.
  pose proof (vested_no_panic e now Hwf ltac:(lia)) as Hnp.
  destruct (vested_amount e now) as [v|err']; [discriminate|].
  intros H; inversion H; subst. congruence.
Qed.

Lemma claim_tokens_no_panic_witness :
  outcome (claim_tokens transfer_ok 6 (sched 0 100 I64.MAX 0 0) 50)
    <> Err ArithmeticPanic.
Proof.
  apply claim_tokens_no_panic;
    [unfold wf_account, I64.in_range, I64.MIN, I64.MAX; cbn; lia | cbn; lia].
Defined.

Lemma claim_tokens_fresh_all (tc : TransferPort) (dec now : Z)
    (key_b key_v bump_seed st en total cliff : Z) :
  I64.in_range st -> I64.in_range en -> I64.in_range total ->
  st < en -> 0 < total -> cliff <= now -> en <= now -> tc total dec = None ->
  let e0 := create_employee_vesting key_b key_v bump_seed st en total cliff in
  claim_tokens tc dec e0 now =
    mkOutcome (set_total_withdrawn e0 total) [total] (Ok tt).
Proof.
  intros Hst Hen Htot Hse Hpos Hcl Hend Htc e0.
  assert (Hc : claimable_amount e0 now = Ok total).
  { unfold claimable_amount. cbn.
    replace (now <? cliff) with false by (symmetry; apply Z.ltb_ge; lia).
    unfold vested_amount. cbn.
    replace (I64.saturating_sub en st =? 0) with false
      by (symmetry; apply Z.eqb_neq; rewrite saturating_sub_zero by assumption;
          lia).
    replace (en <=? now) with true by (symmetry; apply Z.leb_le; lia).
    rewrite saturating_sub_exact by (rewrite Z.sub_0_r; exact Htot).
    f_equal. lia. }
  unfold claim_tokens. rewrite Hc.
  replace (total =? 0) with false by (symmetry; apply Z.eqb_neq; lia).
  rewrite as_u64_pos by (assumption || lia). rewrite Htc.
  cbn [total_withdrawn e0 create_employee_vesting].
  rewrite checked_add_in_range by (rewrite Z.add_0_l; exact Htot).
  rewrite Z.add_0_l. reflexivity.
Qed.

(** Extra: a freshly created schedule with [0 < total_amount] and
    [start_time < end_time], claimed once at a time past both [end_time]
    and [cliff_time], transfers exactly [total_amount] and records it as
    withdrawn. *)
Theorem create_then_claim_all (tc : TransferPort) (dec now : Z)
    (key_b key_v bump_seed st en total cliff : Z) :
  I64.in_range st -> I64.in_range en -> I64.in_range total ->
  st < en -> 0 < total -> cliff <= now -> en <= now -> tc total dec = None ->
  let e0 := create_employee_vesting key_b key_v bump_seed st en total cliff in
  claim_tokens tc dec e0 now =
    mkOutcome (set_total_withdrawn e0 total) [total] (Ok tt).
Proof.
  intros Hst Hen Htot Hse Hpos Hcl Hend Htc.
  now apply claim_tokens_fresh_all.
Qed.

Lemma create_then_claim_all_witness :
  claim_tokens transfer_ok 6 (create_employee_vesting 1 2 255 0 100 1000 10) 100 =
    mkOutcome (set_total_withdrawn (create_employee_vesting 1 2 255 0 100 1000 10)
                 1000) [1000] (Ok tt).
Proof.
  apply create_then_claim_all; unfold I64.in_range, I64.MIN, I64.MAX;
    (lia || reflexivity).
Defined.

(** Extra: a schedule whose [end_time] is before its [start_time] is not
    rejected: only [end_time = start_time] is.  From [end_time] on such a
    schedule counts as fully vested. *)
Theorem reversed_schedule_fully_vested (e : EmployeeAccount) (now : Z) :
  wf_account e -> end_time e < start_time e -> end_time e <= now ->
  vested_amount e now = Ok (total_amount e).
Proof.
  intros (Hs & He & _) Hrev Hnow. unfold vested_amount.
  replace (I64.saturating_sub (end_time e) (start_time e) =? 0) with false
    by (symmetry; apply Z.eqb_neq; rewrite saturating_sub_zero by assumption;
        lia).
  replace (end_time e <=? now) with true by (symmetry; apply Z.leb_le; lia).
  reflexivity.
Qed.

Lemma reversed_schedule_fully_vested_witness :
  vested_amount (sched 100 50 1000 100 0) 100 = Ok 1000.
Proof.
  apply reversed_schedule_fully_vested;
    [unfold wf_account, I64.in_range, I64.MIN, I64.MAX; cbn; lia | cbn; lia
    | cbn; lia].
Defined.

(** ** The accounts of the three instructions

    The Anchor account structs [CreateVestingAccount],
    [CreateEmployeeAccount] and [ClaimTokens] validate and create accounts
    before the handler runs.  The ledger maps an address to the account
    data stored there, as the accounts owned by the vesting and token
    programs; a wallet owned by the system program holds no such data.
    Program-derived addresses are computed as Solana does, over the hash of
    the seeds (with the program id) and the ed25519 curve test, both kept
    abstract.  Lamport funding of new accounts and token balances are
    handled by the system and token programs and are not modelled, so these
    models succeed at least whenever the real instructions do. *)

Record VestingAccount := mkVestingAccount {
  owner : Pubkey;
  mint : Pubkey;
  treasury_token_account : Pubkey;
  company_name : list Z;
  treasury_bump : Z;
  vesting_bump : Z
}.

(** A token account, as far as the constraints read it. *)
Record TokenAccount := mkTokenAccount {
  token_mint : Pubkey;
  token_owner : Pubkey
}.

Inductive AccountData :=
| VestingData (v : VestingAccount)
| EmployeeData (e : EmployeeAccount)
| TokenData (t : TokenAccount)
| MintData (decimals : Z)
(** created by [init] earlier in the same instruction, data not yet written *)
| Allocated.

Definition Ledger := Pubkey -> option AccountData.

Definition upd (l : Ledger) (k : Pubkey) (d : AccountData) : Ledger :=
  fun k' => if k' =? k then Some d else l k'.

Inductive AnchorError :=
| AccountNotSigner
| AccountNotInitialized
| AccountNotSystemOwned
| AccountInUse
| ConstraintSeeds
| ConstraintHasOne
| ConstraintTokenMint
| ConstraintTokenOwner
| ConstraintAssociated
| BumpSeedPanic.

Inductive IxError :=
| Framework (a : AnchorError)
| Program (e : ErrorCode).

(** The bytes of a string literal such as [b"vesting_treasury"]. *)
Definition bytes_of_string (s : string) : list Z :=
  map (fun a => Z.of_nat (nat_of_ascii a)) (list_ascii_of_string s).

Definition employee_vesting_tag : list Z := bytes_of_string "employee_vesting".
Definition vesting_treasury_tag : list Z := bytes_of_string "vesting_treasury".

Definition MAX_SEEDS : nat := 16.
Definition MAX_SEED_LEN : nat := 32.

Inductive PdaResult :=
| PdaOk (k : Pubkey)
| PdaInvalidSeeds
| PdaMaxSeedLengthExceeded.

(** The CPI to [transfer_checked]: its accounts and the signer seeds. *)
Record TransferRequest := mkTransferRequest {
  req_from : Pubkey;
  req_mint : Pubkey;
  req_to : Pubkey;
  req_authority : Pubkey;
  req_signer_seeds : list (list Z)
}.

(** The transfer CPI as the token program answers it. *)
Definition TransferCpi := TransferRequest -> Z -> Z -> option TransferError.

Record IxOutcome := mkIxOutcome {
  ix_result : sum IxError Ledger;
  ix_cpis : list (TransferRequest * Z)
}.

Section Solana.

(** [hashv(seeds ++ [program_id, "ProgramDerivedAddress"])] *)
Variable pda_hash : list (list Z) -> Pubkey.
(** Whether a 32-byte string is a point of the ed25519 curve. *)
Variable on_curve : Pubkey -> bool.
(** [Pubkey::as_ref]: the 32 bytes of a key. *)
Variable key_bytes : Pubkey -> list Z.
(** [get_associated_token_address_with_program_id(wallet, mint, token_program)] *)
Variable associated_token_address : Pubkey -> Pubkey -> Pubkey.

(** [Pubkey::create_program_address] *)
Definition create_program_address_result (seeds : list (list Z)) : PdaResult :=
  if (MAX_SEEDS <? List.length seeds)%nat then PdaMaxSeedLengthExceeded
  else if existsb (fun s => (MAX_SEED_LEN <? List.length s)%nat) seeds
  then PdaMaxSeedLengthExceeded
  else
    let h := pda_hash seeds in
    if on_curve h then PdaInvalidSeeds else PdaOk h.

Definition create_program_address (seeds : list (list Z)) : option Pubkey :=
  match create_program_address_result seeds with
  | PdaOk k => Some k
  | _ => None
  end.

(** [Pubkey::try_find_program_address]: bumps [255] down to [1]; an
    invalid-seeds answer tries the next bump, any other error stops. *)
Fixpoint find_from (seeds : list (list Z)) (n : nat) (bump_seed : Z)
    : option (Pubkey * Z) :=
  match n with
  | O => None
  | S n' =>
      match create_program_address_result (seeds ++ [[bump_seed]]) with
      | PdaOk k => Some (k, bump_seed)
      | PdaInvalidSeeds => find_from seeds n' (bump_seed - 1)
      | PdaMaxSeedLengthExceeded => None
      end
  end.

Definition try_find_program_address (seeds : list (list Z)) : option (Pubkey * Z) :=
  find_from seeds 255 255.

(** [init] of a program-derived account with canonical [bump]: the address
    passed must be the one found, and nothing may live there yet.
    [find_program_address] panics when no bump is found. *)
Definition init_pda (l : Ledger) (seeds : list (list Z)) (key : Pubkey)
    : sum IxError Z :=
  match try_find_program_address seeds with
  | None => inl (Framework BumpSeedPanic)
  | Some (k, b) =>
      if negb (k =? key) then inl (Framework ConstraintSeeds)
      else match l key with
           | Some _ => inl (Framework AccountInUse)
           | None => inr b
           end
  end.

(** [seeds = ..., bump = stored_bump] on an existing account. *)
Definition check_pda (seeds : list (list Z)) (bump_seed : Z) (key : Pubkey) : bool :=
  match create_program_address (seeds ++ [[bump_seed]]) with
  | Some k => k =? key
  | None => false
  end.

(** [create_vesting_account] with its [CreateVestingAccount] accounts. *)
Definition create_vesting_account_ix (l : Ledger) (signer : Pubkey)
    (signer_signed : bool) (vesting_key mint_key treasury_key : Pubkey)
    (name : list Z) : sum IxError Ledger :=
  if negb signer_signed then inl (Framework AccountNotSigner) else
  match init_pda l [name] vesting_key with
  | inl err => inl err
  | inr vbump =>
  let l0 := upd l vesting_key Allocated in
  match l0 mint_key with
  | Some (MintData _) =>
  match init_pda l0 [vesting_treasury_tag; name] treasury_key with
  | inl err => inl err
  | inr tbump =>
      let l1 := upd l0 treasury_key
                  (TokenData (mkTokenAccount mint_key treasury_key)) in
      inr (upd l1 vesting_key
             (VestingData {| owner := signer; mint := mint_key;
                             treasury_token_account := treasury_key;
                             company_name := name; treasury_bump := tbump;
                             vesting_bump := vbump |}))
  end
  | _ => inl (Framework AccountNotInitialized)
  end
  end.

(** [create_employee_vesting] with its [CreateEmployeeAccount] accounts. *)
Definition create_employee_vesting_ix (l : Ledger) (owner_key : Pubkey)
    (owner_signed : bool) (beneficiary_key vesting_key employee_key : Pubkey)
    (start_time end_time total_amount cliff_time : Z) : sum IxError Ledger :=
  if negb owner_signed then inl (Framework AccountNotSigner) else
  match l beneficiary_key with
  | Some _ => inl (Framework AccountNotSystemOwned)
  | None =>
  match l vesting_key with
  | Some (VestingData v) =>
  match init_pda l [employee_vesting_tag; key_bytes beneficiary_key;
                    key_bytes vesting_key] employee_key with
  | inl err => inl err
  | inr ebump =>
      if negb (owner v =? owner_key) then inl (Framework ConstraintHasOne)
      else inr (upd l employee_key
                  (EmployeeData (create_employee_vesting beneficiary_key
                     vesting_key ebump start_time end_time total_amount
                     cliff_time)))
  end
  | _ => inl (Framework AccountNotInitialized)
  end
  end.

(** The [ClaimTokens] accounts, checked in the order of the struct; on
    success, the employee and vesting accounts read, the mint's decimals and
    the ledger with the employee's associated token account created if it
    was missing ([init_if_needed]). *)
Definition validate_claim_accounts (l : Ledger) (beneficiary_key : Pubkey)
    (beneficiary_signed : bool) (employee_key vesting_key mint_key treasury_key
    employee_token_key : Pubkey) (name : list Z)
    : sum IxError (EmployeeAccount * VestingAccount * Z * Ledger) :=
  if negb beneficiary_signed then inl (Framework AccountNotSigner) else
  match l employee_key with
  | Some (EmployeeData e) =>
  if negb (check_pda [employee_vesting_tag; key_bytes beneficiary_key;
                      key_bytes vesting_key] (bump e) employee_key)
  then inl (Framework ConstraintSeeds)
  else if negb (beneficiary e =? beneficiary_key) then inl (Framework ConstraintHasOne)
  else if negb (vesting_account e =? vesting_key) then inl (Framework ConstraintHasOne)
  else
  match l vesting_key with
  | Some (VestingData v) =>
  if negb (check_pda [name] (vesting_bump v) vesting_key)
  then inl (Framework ConstraintSeeds)
  else if negb (treasury_token_account v =? treasury_key)
  then inl (Framework ConstraintHasOne)
  else if negb (mint v =? mint_key) then inl (Framework ConstraintHasOne)
  else
  match l mint_key with
  | Some (MintData d) =>
  match l treasury_key with
  | Some (TokenData _) =>
  if negb (associated_token_address beneficiary_key mint_key =? employee_token_key)
  then inl (Framework ConstraintAssociated)
  else
  match l employee_token_key with
  | None =>
      inr (e, v, d, upd l employee_token_key
                      (TokenData (mkTokenAccount mint_key beneficiary_key)))
  | Some (TokenData t) =>
      if negb (token_mint t =? mint_key) then inl (Framework ConstraintTokenMint)
      else if negb (token_owner t =? beneficiary_key)
      then inl (Framework ConstraintTokenOwner)
      else inr (e, v, d, l)
  | Some _ => inl (Framework ConstraintAssociated)
  end
  | _ => inl (Framework AccountNotInitialized)
  end
  | _ => inl (Framework AccountNotInitialized)
  end
  | _ => inl (Framework AccountNotInitialized)
  end
  | _ => inl (Framework AccountNotInitialized)
  end.

(** The [TransferChecked] accounts and signer seeds of lines 113-133. *)
Definition claim_transfer_request (v : VestingAccount)
    (mint_key treasury_key employee_token_key : Pubkey) : TransferRequest :=
  {| req_from := treasury_key; req_mint := mint_key;
     req_to := employee_token_key; req_authority := treasury_key;
     req_signer_seeds := [vesting_treasury_tag; company_name v;
                          [treasury_bump v]] |}.

(** [claim_tokens] with its [ClaimTokens] accounts, at clock time [now]. *)
Definition claim_tokens_ix (cpi : TransferCpi) (l : Ledger)
    (beneficiary_key : Pubkey) (beneficiary_signed : bool)
    (employee_key vesting_key mint_key treasury_key employee_token_key : Pubkey)
    (name : list Z) (now : Z) : IxOutcome :=
  match validate_claim_accounts l beneficiary_key beneficiary_signed
          employee_key vesting_key mint_key treasury_key employee_token_key name with
  | inl err => mkIxOutcome (inl err) []
  | inr (e, v, d, l1) =>
      let req := claim_transfer_request v mint_key treasury_key
                   employee_token_key in
      let o := claim_tokens (cpi req) d e now in
      let cpis := map (fun a => (req, a)) (transfers o) in
      match outcome o with
      | Ok _ => mkIxOutcome (inr (upd l1 employee_key (EmployeeData (acct o)))) cpis
      | Err err => mkIxOutcome (inl (Program err)) cpis
      end
  end.

End Solana.

(** ** Properties of the account layer *)

Section SolanaFacts.

Variable pda_hash : list (list Z) -> Pubkey.
Variable on_curve : Pubkey -> bool.
Variable key_bytes : Pubkey -> list Z.
Variable associated_token_address : Pubkey -> Pubkey -> Pubkey.

Lemma find_from_spec (seeds : list (list Z)) (n : nat) :
  forall b k b', find_from pda_hash on_curve seeds n b = Some (k, b') ->
  create_program_address pda_hash on_curve (seeds ++ [[b']]) = Some k.
Proof.
  induction n as [|n IH]; intros b k b' H; cbn in H; [discriminate|].
  destruct (create_program_address_result pda_hash on_curve (seeds ++ [[b]]))
    eqn:Hr.
  - inversion H; subst. unfold create_program_address. now rewrite Hr.
  - eapply IH; eauto.
  - discriminate.
Qed.

Lemma init_pda_ok (l : Ledger) (seeds : list (list Z)) (key b : Pubkey) :
  init_pda pda_hash on_curve l seeds key = inr b ->
  try_find_program_address pda_hash on_curve seeds = Some (key, b) /\
  l key = None.
Proof.
  unfold init_pda.
  destruct (try_find_program_address pda_hash on_curve seeds) as [[k b0]|];
    [|discriminate].
  destruct (k =? key) eqn:Hk; cbn; [|discriminate].
  apply Z.eqb_eq in Hk; subst k.
  destruct (l key); [discriminate|]. intros H; inversion H; subst. auto.
Qed.

(** Once something lives at the found address, [init] there fails. *)
Lemma init_pda_taken (l : Ledger) (seeds : list (list Z)) (key key' b : Pubkey) :
  try_find_program_address pda_hash on_curve seeds = Some (key, b) ->
  l key <> None ->
  exists err, init_pda pda_hash on_curve l seeds key' = inl err.
Proof.
  intros Hf Hl. unfold init_pda. rewrite Hf.
  destruct (key =? key') eqn:Hk; cbn; [|eauto].
  apply Z.eqb_eq in Hk; subst key'.
  destruct (l key); [eauto | congruence].
Qed.

Lemma upd_eq (l : Ledger) (k : Pubkey) (d : AccountData) : upd l k d k = Some d.
Proof. unfold upd. now rewrite Z.eqb_refl. Qed.

Lemma upd_neq (l : Ledger) (k k' : Pubkey) (d : AccountData) :
  k' <> k -> upd l k d k' = l k'.
Proof. intros H. unfold upd. apply Z.eqb_neq in H. now rewrite H. Qed.

Lemma create_vesting_account_ok (l l' : Ledger) (signer : Pubkey)
    (signed : bool) (vesting_key mint_key treasury_key : Pubkey) (name : list Z) :
  create_vesting_account_ix pda_hash on_curve l signer signed vesting_key
    mint_key treasury_key name = inr l' ->
  signed = true /\
  exists vb tb d,
    try_find_program_address pda_hash on_curve [name] = Some (vesting_key, vb) /\
    try_find_program_address pda_hash on_curve [vesting_treasury_tag; name]
      = Some (treasury_key, tb) /\
    l vesting_key = None /\ l treasury_key = None /\
    l mint_key = Some (MintData d) /\
    treasury_key <> vesting_key /\ mint_key <> vesting_key /\
    l' = upd (upd (upd l vesting_key Allocated) treasury_key (TokenData (mkTokenAccount mint_key treasury_key)))
           vesting_key
           (VestingData {| owner := signer; mint := mint_key;
                           treasury_token_account := treasury_key;
                           company_name := name; treasury_bump := tb;
                           vesting_bump := vb |}).
Proof.
  unfold create_vesting_account_ix.
  destruct signed; cbn [negb]; [|discriminate].
  destruct (init_pda pda_hash on_curve l [name] vesting_key) as [err|vb] eqn:Hv;
    [discriminate|].
  destruct (upd l vesting_key Allocated mint_key) as [[| | |d|]|] eqn:Hm;
    try discriminate.
  destruct (init_pda pda_hash on_curve (upd l vesting_key Allocated)
              [vesting_treasury_tag; name] treasury_key)
    as [err|tb] eqn:Ht; [discriminate|].
  intros H; inversion H; subst.
  apply init_pda_ok in Hv as [Hv1 Hv2]. apply init_pda_ok in Ht as [Ht1 Ht2].
  assert (Hne : treasury_key <> vesting_key)
    by (intros ->; rewrite upd_eq in Ht2; discriminate).
  assert (Hmv : mint_key <> vesting_key)
    by (intros ->; rewrite upd_eq in Hm; discriminate).
  rewrite upd_neq in Ht2, Hm by assumption.
  split; [reflexivity|]. exists vb, tb, d. repeat split; auto.

Qed.

(** Extra: a second [create_vesting_account] for a company name that
    already has a pool fails, whoever signs it and whatever accounts are
    passed: the pool and its treasury cannot be replaced. *)
Theorem create_vesting_account_duplicate_fails (l l' : Ledger)
    (signer1 signer2 : Pubkey) (signed1 signed2 : bool)
    (vk1 mk1 tk1 vk2 mk2 tk2 : Pubkey) (name : list Z) :
  create_vesting_account_ix pda_hash on_curve l signer1 signed1 vk1 mk1 tk1 name
    = inr l' ->
  exists err,
    create_vesting_account_ix pda_hash on_curve l' signer2 signed2 vk2 mk2 tk2 name
      = inl err.
Proof.
  intros H1. apply create_vesting_account_ok in H1
    as (_ & vb & tb & d & Hf & _ & _ & _ & _ & _ & _ & ->).
  destruct (init_pda_taken
              (upd (upd (upd l vk1 Allocated) tk1 (TokenData (mkTokenAccount mk1 tk1)))
                 vk1 (VestingData {| owner := signer1; mint := mk1;
                     treasury_token_account := tk1; company_name := name;
                     treasury_bump := tb; vesting_bump := vb |}))
              [name] vk1 vk2 vb Hf) as [err Herr];
    [rewrite upd_eq; discriminate|].
  unfold create_vesting_account_ix. destruct signed2; cbn [negb]; [|eauto].
  rewrite Herr. eauto.
Qed.

(** Extra: a company name longer than 32 bytes (Solana's limit on one seed)
    can never get a pool: [find_program_address] finds no bump for the
    vesting account's seeds and the instruction aborts, below the 50 bytes
    reserved for the name in [VestingAccount]. *)
Theorem create_vesting_account_long_name_fails (l : Ledger) (signer : Pubkey)
    (signed : bool) (vesting_key mint_key treasury_key : Pubkey) (name : list Z) :
  (32 < List.length name)%nat ->
  exists err,
    create_vesting_account_ix pda_hash on_curve l signer signed vesting_key
      mint_key treasury_key name = inl err.
Proof.
  intros Hlen. unfold create_vesting_account_ix.
  destruct signed; cbn [negb]; [|eauto].
  assert (Hpanic : init_pda pda_hash on_curve l [name] vesting_key
                   = inl (Framework BumpSeedPanic)).
  { unfold init_pda, try_find_program_address. cbn [find_from].
    unfold create_program_address_result.
    replace (MAX_SEEDS <? List.length ([name] ++ [[255%Z]]))%nat with false
      by reflexivity.
    cbn [existsb app].
    replace (MAX_SEED_LEN <? List.length name)%nat with true
      by (symmetry; apply Nat.ltb_lt; unfold MAX_SEED_LEN; lia).
    reflexivity. }
  rewrite Hpanic. eauto.
Qed.

(** Extra: after [create_vesting_account] the pool record holds the signer
    as owner, the mint, the treasury and the name, the treasury is a token
    account of that mint whose authority is itself, and the stored bumps
    re-derive both addresses: the seeds of the pool check in
    [ClaimTokens] hold, and the signer seeds of the claim's transfer derive
    exactly the treasury. *)
Theorem create_vesting_account_roundtrip (l l' : Ledger) (signer : Pubkey)
    (signed : bool) (vesting_key mint_key treasury_key : Pubkey) (name : list Z)
    (any_mint any_treasury any_to : Pubkey) :
  create_vesting_account_ix pda_hash on_curve l signer signed vesting_key
    mint_key treasury_key name = inr l' ->
  exists v,
    l' vesting_key = Some (VestingData v) /\
    owner v = signer /\ mint v = mint_key /\
    treasury_token_account v = treasury_key /\ company_name v = name /\
    l' treasury_key = Some (TokenData (mkTokenAccount mint_key treasury_key)) /\
    check_pda pda_hash on_curve [name] (vesting_bump v) vesting_key = true /\
    create_program_address pda_hash on_curve
      (req_signer_seeds (claim_transfer_request v any_mint any_treasury any_to))
      = Some (treasury_token_account v).
Proof.
  intros H. apply create_vesting_account_ok in H
    as (_ & vb & tb & d & Hfv & Hft & _ & _ & _ & Hne & _ & ->).
  eexists. split; [apply upd_eq|].
  repeat split; cbn [owner mint treasury_token_account company_name
                     vesting_bump treasury_bump].
  - rewrite upd_neq by exact Hne. apply upd_eq.
  - unfold check_pda. rewrite (find_from_spec _ _ _ _ _ Hfv). apply Z.eqb_refl.
  - exact (find_from_spec _ _ _ _ _ Hft).
Qed.

Lemma create_employee_vesting_ok (l l' : Ledger) (owner_key : Pubkey)
    (owner_signed : bool) (bk vk ek : Pubkey) (st en total cliff : Z) :
  create_employee_vesting_ix pda_hash on_curve key_bytes l owner_key
    owner_signed bk vk ek st en total cliff = inr l' ->
  owner_signed = true /\ l bk = None /\
  exists v b,
    l vk = Some (VestingData v) /\ owner v = owner_key /\
    try_find_program_address pda_hash on_curve
      [employee_vesting_tag; key_bytes bk; key_bytes vk] = Some (ek, b) /\
    l ek = None /\
    l' = upd l ek (EmployeeData (create_employee_vesting bk vk b st en total cliff)).
Proof.
  unfold create_employee_vesting_ix.
  destruct owner_signed; cbn [negb]; [|discriminate].
  destruct (l bk) eqn:Hb; [discriminate|].
  destruct (l vk) as [[v| | | |]|] eqn:Hv; try discriminate.
  destruct (init_pda pda_hash on_curve l
              [employee_vesting_tag; key_bytes bk; key_bytes vk] ek)
    as [err|b] eqn:He; [discriminate|].
  destruct (owner v =? owner_key) eqn:Ho; cbn [negb]; [|discriminate].
  intros H; inversion H; subst.
  apply init_pda_ok in He as [He1 He2]. apply Z.eqb_eq in Ho.
  split; [reflexivity|]. split; [reflexivity|].
  exists v, b. repeat split; assumption.
Qed.

(** Extra: [create_employee_vesting] succeeds only when the pool's owner
    signs; it writes one account, at the derived address, holding a fresh
    schedule (nothing withdrawn yet) whose stored bump passes the seeds
    check of [ClaimTokens]; every other account is left as it was. *)
Theorem create_employee_vesting_roundtrip (l l' : Ledger) (owner_key : Pubkey)
    (owner_signed : bool) (bk vk ek : Pubkey) (st en total cliff : Z) :
  create_employee_vesting_ix pda_hash on_curve key_bytes l owner_key
    owner_signed bk vk ek st en total cliff = inr l' ->
  owner_signed = true /\
  (exists v, l vk = Some (VestingData v) /\ owner v = owner_key) /\
  (exists e,
     l' ek = Some (EmployeeData e) /\
     beneficiary e = bk /\ vesting_account e = vk /\ total_withdrawn e = 0 /\
     start_time e = st /\ end_time e = en /\ total_amount e = total /\
     cliff_time e = cliff /\
     check_pda pda_hash on_curve
       [employee_vesting_tag; key_bytes bk; key_bytes vk] (bump e) ek = true) /\
  (forall k, k <> ek -> l' k = l k).
Proof.
  intros H. apply create_employee_vesting_ok in H
    as (Hs & _ & v & b & Hv & Ho & Hf & _ & ->).
  split; [exact Hs|]. split; [exists v; auto|]. split.
  - eexists. split; [apply upd_eq|].
    cbn [beneficiary vesting_account total_withdrawn start_time end_time
         total_amount cliff_time bump create_employee_vesting].
    repeat split.
    unfold check_pda. rewrite (find_from_spec _ _ _ _ _ Hf). apply Z.eqb_refl.
  - intros k Hk. now apply upd_neq.
Qed.


Lemma validate_claim_accounts_ok (l l1 : Ledger) (bk : Pubkey) (signed : bool)
    (ek vk mk tk etk : Pubkey) (name : list Z) (e : EmployeeAccount)
    (v : VestingAccount) (d : Z) :
  validate_claim_accounts pda_hash on_curve key_bytes associated_token_address
    l bk signed ek vk mk tk etk name = inr (e, v, d, l1) ->
  signed = true /\
  l ek = Some (EmployeeData e) /\ beneficiary e = bk /\ vesting_account e = vk /\
  l vk = Some (VestingData v) /\ treasury_token_account v = tk /\ mint v = mk /\
  l mk = Some (MintData d) /\ (exists t, l tk = Some (TokenData t)) /\
  associated_token_address bk mk = etk /\
  ((l etk = None /\ l1 = upd l etk (TokenData (mkTokenAccount mk bk))) \/
   (l etk = Some (TokenData (mkTokenAccount mk bk)) /\ l1 = l)) /\
  check_pda pda_hash on_curve [employee_vesting_tag; key_bytes bk; key_bytes vk]
    (bump e) ek = true /\
  check_pda pda_hash on_curve [name] (vesting_bump v) vk = true.
Proof.
  unfold validate_claim_accounts.
  destruct signed; cbn [negb]; [|discriminate].
  destruct (l ek) as [[|e0| | |]|] eqn:He; try discriminate.
  destruct (check_pda pda_hash on_curve _ (bump e0) ek) eqn:Hpe; cbn [negb];
    [|discriminate].
  destruct (beneficiary e0 =? bk) eqn:Hb; cbn [negb]; [|discriminate].
  destruct (vesting_account e0 =? vk) eqn:Hva; cbn [negb]; [|discriminate].
  destruct (l vk) as [[v0| | | |]|] eqn:Hv; try discriminate.
  destruct (check_pda pda_hash on_curve [name] (vesting_bump v0) vk) eqn:Hpv;
    cbn [negb]; [|discriminate].
  destruct (treasury_token_account v0 =? tk) eqn:Ht; cbn [negb]; [|discriminate].
  destruct (mint v0 =? mk) eqn:Hm; cbn [negb]; [|discriminate].
  destruct (l mk) as [[| | |d0|]|] eqn:Hmk; try discriminate.
  destruct (l tk) as [[| |t0| |]|] eqn:Htk; try discriminate.
  destruct (associated_token_address bk mk =? etk) eqn:Ha; cbn [negb];
    [|discriminate].
  apply Z.eqb_eq in Hb, Hva, Ht, Hm, Ha.
  destruct (l etk) as [[| |[tm tow]| |]|] eqn:Hetk; try discriminate.
  - cbn [token_mint token_owner].
    destruct (tm =? mk) eqn:Htm; cbn [negb]; [|discriminate].
    destruct (tow =? bk) eqn:Hto; cbn [negb]; [|discriminate].
    apply Z.eqb_eq in Htm, Hto. subst tm tow.
    intros H; inversion H; subst.
    repeat split; eauto.
  - intros H; inversion H; subst.
    repeat split; eauto.
Qed.

(** Extra: a token transfer is requested by [claim_tokens] only when every
    account check of [ClaimTokens] has passed: the beneficiary signed, the
    employee account is the one derived from the beneficiary and the pool
    (seeds and stored bump) and names both ([has_one]), the pool is the one
    derived from the company name and records the treasury and mint passed.
    The transfer then moves the schedule's nonzero claimable amount, as a
    [u64], out of that pool's treasury, with the treasury as authority and
    the pool's treasury seeds as signer, in the pool's mint, into the
    beneficiary's associated token account; it is the only transfer
    requested. *)
Theorem claim_tokens_ix_transfer_target (cpi : TransferCpi) (l : Ledger)
    (bk : Pubkey) (signed : bool) (ek vk mk tk etk : Pubkey) (name : list Z)
    (now : Z) (req : TransferRequest) (amount : Z) :
  In (req, amount)
    (ix_cpis (claim_tokens_ix pda_hash on_curve key_bytes associated_token_address
                cpi l bk signed ek vk mk tk etk name now)) ->
  exists e v d l1 c,
    validate_claim_accounts pda_hash on_curve key_bytes associated_token_address
      l bk signed ek vk mk tk etk name = inr (e, v, d, l1) /\
    signed = true /\
    l ek = Some (EmployeeData e) /\ beneficiary e = bk /\ vesting_account e = vk /\
    check_pda pda_hash on_curve [employee_vesting_tag; key_bytes bk; key_bytes vk]
      (bump e) ek = true /\
    l vk = Some (VestingData v) /\
    check_pda pda_hash on_curve [name] (vesting_bump v) vk = true /\
    treasury_token_account v = tk /\ mint v = mk /\
    req_from req = treasury_token_account v /\
    req_authority req = treasury_token_account v /\
    req_mint req = mint v /\
    req_to req = associated_token_address bk (mint v) /\
    req_signer_seeds req = [vesting_treasury_tag; company_name v; [treasury_bump v]] /\
    claimable_amount e now = Ok c /\ c <> 0 /\ amount = I64.as_u64 c /\
    ix_cpis (claim_tokens_ix pda_hash on_curve key_bytes associated_token_address
               cpi l bk signed ek vk mk tk etk name now) = [(req, amount)].
Proof.
  unfold claim_tokens_ix.
  destruct (validate_claim_accounts pda_hash on_curve key_bytes
              associated_token_address l bk signed ek vk mk tk etk name)
    as [err|[[[e v] d] l1]] eqn:Hval; [cbn; contradiction|].
  apply validate_claim_accounts_ok in Hval
    as (Hs & He & Hb & Hva & Hv & Ht & Hm & _ & _ & Ha & _ & Hpe & Hpv).
  set (r := claim_transfer_request v mk tk etk).
  assert (Hcpis :
    ix_cpis (match outcome (claim_tokens (cpi r) d e now) with
             | Ok _ => mkIxOutcome (inr (upd l1 ek
                         (EmployeeData (acct (claim_tokens (cpi r) d e now)))))
                         (map (fun a => (r, a)) (transfers (claim_tokens (cpi r) d e now)))
             | Err err => mkIxOutcome (inl (Program err))
                         (map (fun a => (r, a)) (transfers (claim_tokens (cpi r) d e now)))
             end) = map (fun a => (r, a)) (transfers (claim_tokens (cpi r) d e now)))
    by (destruct (outcome (claim_tokens (cpi r) d e now)); reflexivity).
  rewrite Hcpis. intros Hin.
  unfold claim_tokens in *.
  destruct (claimable_amount e now) as [c|err] eqn:Hc; [|cbn in Hin; contradiction].
  destruct (c =? 0) eqn:Hc0; [cbn in Hin; contradiction|].
  assert (Hsingle : transfers (match cpi r (I64.as_u64 c) d with
            | Some t => mkOutcome e [I64.as_u64 c] (Err (TokenTransferError t))
            | None => match I64.checked_add (total_withdrawn e) c with
                      | Some w => mkOutcome (set_total_withdrawn e w) [I64.as_u64 c] (Ok tt)
                      | None => mkOutcome e [I64.as_u64 c] (Err ArithmeticPanic)
                      end
            end) = [I64.as_u64 c])
    by (destruct (cpi r (I64.as_u64 c) d); [|destruct (I64.checked_add _ _)];
        reflexivity).
  rewrite Hsingle in Hin |- *. cbn in Hin.
  destruct Hin as [Hin|[]]. inversion Hin; subst req amount.
  exists e, v, d, l1, c.
  split; [reflexivity|]. split; [exact Hs|].
  apply Z.eqb_neq in Hc0.
  subst mk tk etk. unfold r, claim_transfer_request.
  cbn [req_from req_authority req_mint req_to req_signer_seeds].
  repeat split; try assumption; try reflexivity.
Qed.


(** A pool and a schedule made by the two creation instructions pass every
    account check of [ClaimTokens]. *)
Lemma created_accounts_validate (l l1 l2 : Ledger) (signer : Pubkey)
    (signed : bool) (vk mk tk : Pubkey) (name : list Z) (owner_key : Pubkey)
    (owner_signed : bool) (bk ek : Pubkey) (st en total cliff : Z) :
  create_vesting_account_ix pda_hash on_curve l signer signed vk mk tk name
    = inr l1 ->
  create_employee_vesting_ix pda_hash on_curve key_bytes l1 owner_key
    owner_signed bk vk ek st en total cliff = inr l2 ->
  l2 (associated_token_address bk mk) = None ->
  exists b v d,
    create_program_address pda_hash on_curve
      [vesting_treasury_tag; company_name v; [treasury_bump v]] = Some tk /\
    validate_claim_accounts pda_hash on_curve key_bytes associated_token_address
      l2 bk true ek vk mk tk (associated_token_address bk mk) name
    = inr (create_employee_vesting bk vk b st en total cliff, v, d,
           upd l2 (associated_token_address bk mk)
             (TokenData (mkTokenAccount mk bk))).
Proof.
  intros Hp He Hata.
  apply create_vesting_account_ok in Hp
    as (_ & vb & tb & d & Hfv & Hft & Hlvk & Hltk & Hlmk & Htv & Hmv & Hl1).
  apply create_employee_vesting_ok in He
    as (_ & Hbk & v & b & Hv & _ & Hfe & Hek & Hl2).
  assert (Hmt : mk <> tk) by congruence.
  assert (H1vk : l1 vk = Some (VestingData
            {| owner := signer; mint := mk; treasury_token_account := tk;
               company_name := name; treasury_bump := tb; vesting_bump := vb |}))
    by (rewrite Hl1; apply upd_eq).
  rewrite H1vk in Hv. inversion Hv; subst v. clear Hv.
  assert (H1tk : l1 tk = Some (TokenData (mkTokenAccount mk tk)))
    by (rewrite Hl1, upd_neq by exact Htv; apply upd_eq).
  assert (H1mk : l1 mk = Some (MintData d))
    by (rewrite Hl1, upd_neq, upd_neq, upd_neq by assumption; exact Hlmk).
  assert (Hevk : vk <> ek) by congruence.
  assert (Hetk : tk <> ek) by congruence.
  assert (Hemk : mk <> ek) by congruence.
  assert (Hce : check_pda pda_hash on_curve
            [employee_vesting_tag; key_bytes bk; key_bytes vk] b ek = true)
    by (unfold check_pda; rewrite (find_from_spec _ _ _ _ _ Hfe);
        apply Z.eqb_refl).
  assert (Hcv : check_pda pda_hash on_curve [name] vb vk = true)
    by (unfold check_pda; rewrite (find_from_spec _ _ _ _ _ Hfv);
        apply Z.eqb_refl).
  exists b, {| owner := signer; mint := mk; treasury_token_account := tk;
               company_name := name; treasury_bump := tb; vesting_bump := vb |}, d.
  split; [exact (find_from_spec _ _ _ _ _ Hft)|].
  unfold validate_claim_accounts. cbn [negb].
  rewrite Hl2, upd_eq. cbn [bump create_employee_vesting]. rewrite Hce.
  cbn [negb beneficiary vesting_account]. rewrite !Z.eqb_refl. cbn [negb].
  rewrite !upd_neq by assumption. rewrite H1vk.
  cbn [vesting_bump treasury_token_account mint]. rewrite Hcv.
  cbn [negb]. rewrite !Z.eqb_refl. cbn [negb].
  rewrite H1mk, H1tk, ?Z.eqb_refl. cbn [negb].
  rewrite <- Hl2, Hata. reflexivity.
Qed.

(** Extra: the whole life of a schedule through the three instructions.
    After [create_vesting_account] and [create_employee_vesting] (with
    [start_time < end_time] and [0 < total_amount]), a claim by the
    beneficiary at a time past [end_time] and [cliff_time] succeeds when the
    token program does: it creates the beneficiary's token account, records
    the whole [total_amount] as withdrawn and requests one transfer of
    [total_amount] out of the treasury into that account, signed with seeds
    that derive the treasury's address. *)
Theorem pool_schedule_claim_end_to_end (cpi : TransferCpi) (l l1 l2 : Ledger)
    (signer : Pubkey) (signed : bool) (vk mk tk : Pubkey) (name : list Z)
    (owner_key : Pubkey) (owner_signed : bool) (bk ek : Pubkey)
    (st en total cliff now : Z) :
  create_vesting_account_ix pda_hash on_curve l signer signed vk mk tk name
    = inr l1 ->
  create_employee_vesting_ix pda_hash on_curve key_bytes l1 owner_key
    owner_signed bk vk ek st en total cliff = inr l2 ->
  l2 (associated_token_address bk mk) = None ->
  I64.in_range st -> I64.in_range en -> I64.in_range total ->
  st < en -> 0 < total -> cliff <= now -> en <= now ->
  (forall r a dec, cpi r a dec = None) ->
  exists l3 req,
    ix_result (claim_tokens_ix pda_hash on_curve key_bytes
                 associated_token_address cpi l2 bk true ek vk mk tk
                 (associated_token_address bk mk) name now) = inr l3 /\
    ix_cpis (claim_tokens_ix pda_hash on_curve key_bytes
               associated_token_address cpi l2 bk true ek vk mk tk
               (associated_token_address bk mk) name now) = [(req, total)] /\
    (exists e, l3 ek = Some (EmployeeData e) /\ total_withdrawn e = total) /\
    l3 (associated_token_address bk mk) = Some (TokenData (mkTokenAccount mk bk)) /\
    req_from req = tk /\ req_authority req = tk /\ req_mint req = mk /\
    req_to req = associated_token_address bk mk /\
    create_program_address pda_hash on_curve (req_signer_seeds req) = Some tk.
Proof.
  intros Hp He Hata Hst Hen Htot Hse Hpos Hcl Hend Hcpi.
  destruct (created_accounts_validate _ _ _ _ _ _ _ _ _ _ _ _ _ _ _ _ _
              Hp He Hata) as (b & v & d & Hsd & Hval).
  assert (Hne : associated_token_address bk mk <> ek)
    by (apply create_employee_vesting_ok in He
          as (_ & _ & v0 & b0 & _ & _ & _ & Hek & Hl2);
        rewrite Hl2 in Hata; intros Heq; rewrite Heq, upd_eq in Hata;
        discriminate).
  set (r := claim_transfer_request v mk tk (associated_token_address bk mk)).
  unfold claim_tokens_ix. rewrite Hval. cbv beta iota zeta. fold r.
  rewrite (claim_tokens_fresh_all (cpi r) d now bk vk b st en total cliff)
    by (assumption || apply Hcpi).
  cbn [outcome acct transfers map ix_result ix_cpis].
  eexists _, r. split; [reflexivity|]. split; [reflexivity|]. split.
  - eexists. split; [apply upd_eq|reflexivity].
  - rewrite upd_neq by exact Hne. rewrite upd_eq.
    unfold r, claim_transfer_request.
    cbn [req_from req_authority req_mint req_to req_signer_seeds].
    repeat split. exact Hsd.
Qed.

End SolanaFacts.

(** ** Witnesses of the account-layer properties *)

(** A concrete derivation for the witnesses: a hash of the seeds that no
    curve point matches. *)
Definition toy_hash (seeds : list (list Z)) : Pubkey :=
  1000 + Z.of_nat (List.length seeds) * 100000
  + fold_right Z.add 0 (map (fun seed => fold_right Z.add 0 seed) seeds).

Definition toy_curve (_ : Pubkey) : bool := false.

Definition toy_key_bytes (k : Pubkey) : list Z := [k].

Definition toy_ata (wallet mint_key : Pubkey) : Pubkey := 50000 + wallet + mint_key.

Definition toy_pda (seeds : list (list Z)) : Pubkey :=
  match try_find_program_address toy_hash toy_curve seeds with
  | Some (k, _) => k
  | None => 0
  end.

Definition toy_mint_ledger : Ledger :=
  fun k => if k =? 9 then Some (MintData 6) else None.

Definition toy_pool_key : Pubkey := toy_pda [[65]].
Definition toy_treasury_key : Pubkey := toy_pda [vesting_treasury_tag; [65]].

Definition toy_after_pool : Ledger :=
  match create_vesting_account_ix toy_hash toy_curve toy_mint_ledger 1 true
          toy_pool_key 9 toy_treasury_key [65] with
  | inr l => l
  | inl _ => toy_mint_ledger
  end.

Lemma create_vesting_account_duplicate_fails_witness :
  exists err,
    create_vesting_account_ix toy_hash toy_curve toy_after_pool 7 true
      toy_pool_key 9 toy_treasury_key [65] = inl err.
Proof.
  apply (create_vesting_account_duplicate_fails toy_hash toy_curve
           toy_mint_ledger toy_after_pool 1 7 true true
           toy_pool_key 9 toy_treasury_key toy_pool_key 9 toy_treasury_key [65]).
  vm_compute. reflexivity.
Defined.

Lemma create_vesting_account_long_name_fails_witness :
  exists err,
    create_vesting_account_ix toy_hash toy_curve toy_mint_ledger 1 true
      toy_pool_key 9 toy_treasury_key (repeat 65 33) = inl err.
Proof.
  apply create_vesting_account_long_name_fails. cbn. lia.
Defined.

Lemma create_vesting_account_roundtrip_witness :
  exists v,
    toy_after_pool toy_pool_key = Some (VestingData v) /\ owner v = 1.
Proof.
  destruct (create_vesting_account_roundtrip toy_hash toy_curve toy_mint_ledger
              toy_after_pool 1 true toy_pool_key 9 toy_treasury_key [65] 0 0 0)
    as (v & Hv & Ho & _); [vm_compute; reflexivity|].
  exists v. split; assumption.
Defined.

Definition toy_employee_key : Pubkey :=
  toy_pda [employee_vesting_tag; toy_key_bytes 3; toy_key_bytes toy_pool_key].

Definition toy_after_employee : Ledger :=
  match create_employee_vesting_ix toy_hash toy_curve toy_key_bytes
          toy_after_pool 1 true 3 toy_pool_key toy_employee_key 0 100 1000 10 with
  | inr l => l
  | inl _ => toy_after_pool
  end.

Lemma create_employee_vesting_roundtrip_witness :
  exists e, toy_after_employee toy_employee_key = Some (EmployeeData e) /\
            total_withdrawn e = 0.
Proof.
  destruct (create_employee_vesting_roundtrip toy_hash toy_curve toy_key_bytes
              toy_after_pool toy_after_employee 1 true 3 toy_pool_key
              toy_employee_key 0 100 1000 10)
    as (_ & _ & (e & He & _ & _ & Hw & _) & _); [vm_compute; reflexivity|].
  exists e. split; assumption.
Defined.


Definition toy_claim_ix : IxOutcome :=
  claim_tokens_ix toy_hash toy_curve toy_key_bytes toy_ata (fun _ _ _ => None)
    toy_after_employee 3 true toy_employee_key toy_pool_key 9 toy_treasury_key
    (toy_ata 3 9) [65] 150.

Lemma claim_tokens_ix_transfer_target_witness :
  exists req, ix_cpis toy_claim_ix = [(req, 1000)] /\ req_from req = toy_treasury_key.
Proof.
  destruct (claim_tokens_ix_transfer_target toy_hash toy_curve toy_key_bytes
              toy_ata (fun _ _ _ => None) toy_after_employee 3 true
              toy_employee_key toy_pool_key 9 toy_treasury_key (toy_ata 3 9)
              [65] 150 (claim_transfer_request
                 {| owner := 1; mint := 9; treasury_token_account := toy_treasury_key;
                    company_name := [65];
                    treasury_bump := 255; vesting_bump := 255 |}
                 9 toy_treasury_key (toy_ata 3 9)) 1000)
    as (e & v & d & l1 & c & Hrest); [vm_compute; left; reflexivity|].
  destruct Hrest as (_ & _ & _ & _ & _ & _ & _ & _ & _ & _ & _ & _ & _ & _ & _ &
                     _ & _ & _ & Hl).
  eexists. split; [exact Hl|]. vm_compute. reflexivity.
Defined.


Lemma pool_schedule_claim_end_to_end_witness :
  exists l3 req,
    ix_result toy_claim_ix = inr l3 /\ ix_cpis toy_claim_ix = [(req, 1000)].
Proof.
  destruct (pool_schedule_claim_end_to_end toy_hash toy_curve toy_key_bytes
              toy_ata (fun _ _ _ => None) toy_mint_ledger toy_after_pool
              toy_after_employee 1 true toy_pool_key 9 toy_treasury_key [65]
              1 true 3 toy_employee_key 0 100 1000 10 150)
    as (l3 & req & Hr & Hc & _);
    try (vm_compute; reflexivity);
    try (unfold I64.in_range, I64.MIN, I64.MAX; lia);
    try lia.
  exists l3, req. split; assumption.
Defined.
